(** * Payment gateway relay: the [/pay] pipeline of [src/index.js]

    A shallow embedding of the request handler and its helpers
    ([generateTransactionID], [getNetworkBankCode], [authenticate],
    [performNameEnquiry], [processCollection] and the [app.post('/pay')]
    callback), followed by the properties of the specification and by
    further properties of the code.

    The handler talks to three upstream endpoints and to a record store.
    Their behaviour is not part of the program: it is the [World] every
    theorem quantifies over.  What the program does with the answers is
    computed by the definitions below.

    - An upstream call resolves, is rejected with a response, or fails
      without one, as axios reports it.
    - A call to the store is carried out or rejected with an error; a
      rejected call leaves the table as it was.
    - Every call settles.  The source sets no timeout, and a call that
      never returns leaves the request unanswered: that is outside the
      model.  The theorems say what a run does once its calls have
      settled; none of them says that every request is answered.
    - Awaited steps run one after the other, so a run is a state
      transformer; every observable step is appended to a trace.  Console
      output is kept by its label only.
    - One request at a time: the table is touched by this handler only
      while it runs. *)

From Stdlib Require Import ZArith NArith Ascii String List Bool Lia.
From stdpp Require Import base option gmap strings list fin_maps pretty.
Import ListNotations.

Local Open Scope string_scope.
Local Open Scope Z_scope.

Set Warnings "-register-all".

(** ** JavaScript values *)

Module JS.

(** A JavaScript number is kept as the decimal it prints as: sign,
    digits [m] and exponent [e] stand for [m * 10^e].  Rounding of long
    literals to binary64 is outside the model, and with it the overflow
    to [Infinity] and the underflow to 0 of literals beyond its range;
    decimals of up to fifteen significant digits within that range are
    represented exactly by this reading. *)
Inductive number : Type :=
| NaN
| Infinity (neg : bool)
| Finite (neg : bool) (m : N) (e : Z).

(** What [express.json()], axios and [JSON.parse] hand to the program:
    JSON data, plus [undefined] for an absent property.  Strings are
    sequences of ASCII characters, and an object lists each of its keys
    once. *)
Inductive value : Type :=
| VUndefined
| VNull
| VBool (b : bool)
| VNum (n : number)
| VStr (s : string)
| VArr (items : list value)
| VObj (fields : list (string * value)).

(** [!!v]: the falsy values are [undefined], [null], [false], [0], [-0],
    [NaN] and the empty string. *)
Definition truthy (v : value) : bool :=
  match v with
  | VUndefined | VNull => false
  | VBool b => b
  | VNum NaN => false
  | VNum (Finite _ m _) => negb (m =? 0)%N
  | VNum (Infinity _) => true
  | VStr s => negb (String.eqb s "")
  | VArr _ | VObj _ => true
  end.

(** [a || b] *)
Definition or_else (a b : value) : value := if truthy a then a else b.

Infix "|||" := or_else (at level 50, left associativity).

Definition nullish (v : value) : bool :=
  match v with VUndefined | VNull => true | _ => false end.

Fixpoint assoc (k : string) (fields : list (string * value)) : option value :=
  match fields with
  | [] => None
  | (k', v) :: rest => if String.eqb k k' then Some v else assoc k rest
  end.

(** Reading property [k] of a value that is neither [null] nor
    [undefined].  Every name this program reads is a plain data key: none
    of them is a property of a string, number, boolean or array, nor one
    inherited from [Object.prototype]. *)
Definition member (v : value) (k : string) : value :=
  match v with
  | VObj fields => default VUndefined (assoc k fields)
  | _ => VUndefined
  end.

(** [v?.k] *)
Definition opt_member (v : value) (k : string) : value :=
  if nullish v then VUndefined else member v k.

(** ** Characters *)

Definition code (c : ascii) : N := N_of_ascii c.

Definition is_digit (c : ascii) : bool := (48 <=? code c)%N && (code c <=? 57)%N.

Definition digit_val (c : ascii) : N := (code c - 48)%N.

(** White space and line terminators of the ASCII range. *)
Definition is_space (c : ascii) : bool :=
  ((9 <=? code c)%N && (code c <=? 13)%N) || (code c =? 32)%N.

Definition upper (c : ascii) : ascii :=
  if (97 <=? code c)%N && (code c <=? 122)%N then ascii_of_N (code c - 32) else c.

(** [String.prototype.toUpperCase] *)
Fixpoint toUpperCase (s : string) : string :=
  match s with
  | EmptyString => EmptyString
  | String c r => String (upper c) (toUpperCase r)
  end.

Fixpoint trimStart (s : string) : string :=
  match s with
  | String c r => if is_space c then trimStart r else s
  | EmptyString => EmptyString
  end.

(** Drops trailing white space: a character is kept when it is not a
    space or when something is kept after it. *)
Fixpoint trimEnd (s : string) : string :=
  match s with
  | EmptyString => EmptyString
  | String c r =>
      match trimEnd r with
      | EmptyString => if is_space c then EmptyString else String c EmptyString
      | r' => String c r'
      end
  end.

(** [String.prototype.trim] *)
Definition trim (s : string) : string := trimEnd (trimStart s).

(** ** Numbers and text *)

Fixpoint strip_zeros (fuel : nat) (m : N) (e : Z) : N * Z :=
  match fuel with
  | O => (m, e)
  | S fuel' =>
      if (m =? 0)%N then (0%N, 0)
      else if (m mod 10 =? 0)%N then strip_zeros fuel' (m / 10)%N (e + 1)
      else (m, e)
  end.

(** The shortest digits of [m * 10^e]: no trailing zero in [m]. *)
Definition canon (m : N) (e : Z) : N * Z := strip_zeros (S (N.size_nat m)) m e.

Fixpoint zeros (n : nat) : string :=
  match n with O => "" | S n' => String "0" (zeros n') end.

(** [Number::toString] in radix 10. *)
Definition number_to_string (x : number) : string :=
  match x with
  | NaN => "NaN"
  | Infinity false => "Infinity"
  | Infinity true => "-Infinity"
  | Finite neg m e =>
      let '(s, e') := canon m e in
      if (s =? 0)%N then "0"
      else
        let ds := pretty s in
        let k := Z.of_nat (String.length ds) in
        let n := k + e' in
        (if neg then "-" else "") +:+
        (if (k <=? n) && (n <=? 21) then ds +:+ zeros (Z.to_nat (n - k))
         else if (0 <? n) && (n <=? 21) then
           substring 0 (Z.to_nat n) ds +:+ "." +:+
           substring (Z.to_nat n) (Z.to_nat (k - n)) ds
         else if (-6 <? n) && (n <=? 0) then "0." +:+ zeros (Z.to_nat (- n)) +:+ ds
         else
           let ex := n - 1 in
           let tail := "e" +:+ (if 0 <=? ex then "+" else "-") +:+ pretty (Z.abs ex) in
           match ds with
           | String c EmptyString => String c tail
           | String c rest => String c ("." +:+ rest +:+ tail)
           | EmptyString => tail
           end)
  end.

Definition join_with (sep : string) (parts : list string) : string :=
  match parts with
  | [] => ""
  | p :: rest => fold_left (fun acc q => acc +:+ sep +:+ q) rest p
  end.

Definition has_key (k : string) (fields : list (string * value)) : bool :=
  match assoc k fields with Some _ => true | None => false end.

(** [ToString], as a template literal, [parseFloat] and [parseInt] apply
    it; [None] is the [TypeError] it throws.  An object is converted by
    its [toString] method.  The inherited one prints [[object Object]].
    An own property of that name hides it, and in JSON data its value is
    never a function: the conversion falls back on [valueOf], which,
    inherited or not, yields no primitive either, and throws.  An array
    joins the conversions of its elements, [null] and [undefined] giving
    the empty string, and throws when one of them does. *)
Fixpoint ToString (v : value) : option string :=
  match v with
  | VUndefined => Some "undefined"
  | VNull => Some "null"
  | VBool true => Some "true"
  | VBool false => Some "false"
  | VNum n => Some (number_to_string n)
  | VStr s => Some s
  | VArr items =>
      match
        (fix each (l : list value) : option (list string) :=
           match l with
           | [] => Some []
           | x :: r =>
               match (if nullish x then Some "" else ToString x), each r with
               | Some t, Some ts => Some (t :: ts)
               | _, _ => None
               end
           end) items
      with
      | Some parts => Some (join_with "," parts)
      | None => None
      end
  | VObj fields => if has_key "toString" fields then None else Some "[object Object]"
  end.

(** The message of the [TypeError] of a conversion that fails. *)
Definition cannot_convert : string := "Cannot convert object to primitive value".

(** The word a message uses for a value that is [null] or [undefined]. *)
Definition nullish_text (v : value) : string :=
  match v with VNull => "null" | _ => "undefined" end.

Definition quote_char : ascii := "034"%char.
Definition backslash : ascii := "092"%char.

Definition hex_digit (n : N) : ascii :=
  if (n <? 10)%N then ascii_of_N (48 + n) else ascii_of_N (87 + n).

Definition escape_char (c : ascii) : string :=
  if Ascii.eqb c quote_char then String backslash (String quote_char "")
  else if Ascii.eqb c backslash then String backslash (String backslash "")
  else if (code c =? 8)%N then String backslash "b"
  else if (code c =? 12)%N then String backslash "f"
  else if (code c =? 10)%N then String backslash "n"
  else if (code c =? 13)%N then String backslash "r"
  else if (code c =? 9)%N then String backslash "t"
  else if (code c <? 32)%N then
    String backslash
      ("u00" +:+ String (hex_digit (code c / 16)) (String (hex_digit (code c mod 16)) ""))
  else String c "".

Fixpoint escape (s : string) : string :=
  match s with
  | EmptyString => ""
  | String c r => escape_char c +:+ escape r
  end.

Definition quote (s : string) : string :=
  String quote_char (escape s +:+ String quote_char "").

(** [JSON.stringify(v)]: [None] is the [undefined] it returns for
    [undefined]; inside an object such a property is left out, inside an
    array it prints as [null]. *)
Fixpoint stringify (v : value) : option string :=
  match v with
  | VUndefined => None
  | VNull => Some "null"
  | VBool true => Some "true"
  | VBool false => Some "false"
  | VNum (Finite neg m e) => Some (number_to_string (Finite neg m e))
  | VNum _ => Some "null"
  | VStr s => Some (quote s)
  | VArr items =>
      Some ("[" +:+
        join_with ","
          ((fix each (l : list value) : list string :=
              match l with
              | [] => []
              | x :: r => default "null" (stringify x) :: each r
              end) items) +:+ "]")
  | VObj fields =>
      Some ("{" +:+
        join_with ","
          ((fix each (l : list (string * value)) : list string :=
              match l with
              | [] => []
              | (k, x) :: r =>
                  match stringify x with
                  | Some t => (quote k +:+ ":" +:+ t) :: each r
                  | None => each r
                  end
              end) fields) +:+ "}")
  end.

(** The value of the expression [JSON.stringify(v)]. *)
Definition JSON_stringify (v : value) : value :=
  match stringify v with Some t => VStr t | None => VUndefined end.

(** The text of [JSON.stringify(v)] inside a template literal: the
    conversion of a string or of [undefined] does not throw. *)
Definition JSON_text (v : value) : string :=
  match stringify v with Some t => t | None => "undefined" end.

Fixpoint take_digits (s : string) : string * string :=
  match s with
  | String c r =>
      if is_digit c then let '(ds, rest) := take_digits r in (String c ds, rest)
      else ("", s)
  | EmptyString => ("", "")
  end.

Fixpoint digits_value (acc : N) (ds : string) : N :=
  match ds with
  | EmptyString => acc
  | String c r => digits_value (10 * acc + digit_val c)%N r
  end.

Definition take_sign (s : string) : bool * string :=
  match s with
  | String "-" r => (true, r)
  | String "+" r => (false, r)
  | _ => (false, s)
  end.

Definition exponent_part (s : string) : Z :=
  match s with
  | String c r =>
      if Ascii.eqb c "e" || Ascii.eqb c "E" then
        let '(neg, r') := take_sign r in
        let '(ds, _) := take_digits r' in
        match ds with
        | EmptyString => 0
        | _ => let n := Z.of_N (digits_value 0 ds) in if neg then - n else n
        end
      else 0
  | EmptyString => 0
  end.

(** [parseFloat] on a string: leading white space is skipped and the
    longest prefix that is a decimal literal is read; [NaN] when there is
    none. *)
Definition parseFloat_string (input : string) : number :=
  let '(neg, s) := take_sign (trimStart input) in
  if String.prefix "Infinity" s then Infinity neg
  else
    let '(ip, r1) := take_digits s in
    let '(fp, r2) :=
      match r1 with
      | String c r => if Ascii.eqb c "." then take_digits r else ("", r1)
      | EmptyString => ("", r1)
      end in
    match ip +:+ fp with
    | EmptyString => NaN
    | ds =>
        let '(m, e) :=
          canon (digits_value 0 ds) (exponent_part r2 - Z.of_nat (String.length fp)) in
        Finite neg m e
    end.

(** [parseFloat(v)] converts its argument to a string first; [None] is
    the [TypeError] of that conversion. *)
Definition parseFloat (v : value) : option number :=
  match ToString v with
  | Some s => Some (parseFloat_string s)
  | None => None
  end.

Definition hex_val (c : ascii) : option N :=
  if is_digit c then Some (digit_val c)
  else if (97 <=? code c)%N && (code c <=? 102)%N then Some (code c - 87)%N
  else if (65 <=? code c)%N && (code c <=? 70)%N then Some (code c - 55)%N
  else None.

Fixpoint hex_prefix (acc : option N) (s : string) : option N :=
  match s with
  | String c r =>
      match hex_val c with
      | Some d => hex_prefix (Some (16 * default 0%N acc + d)%N) r
      | None => acc
      end
  | EmptyString => acc
  end.

(** [parseInt] on a string, without a radix argument: radix 16 after
    [0x], else 10. *)
Definition parseInt_string (input : string) : number :=
  let '(neg, s) := take_sign (trimStart input) in
  let whole (n : N) := let '(m, e) := canon n 0 in Finite neg m e in
  if String.prefix "0x" s || String.prefix "0X" s then
    match hex_prefix None (substring 2 (String.length s - 2) s) with
    | Some n => whole n
    | None => NaN
    end
  else
    match fst (take_digits s) with
    | EmptyString => NaN
    | ds => whole (digits_value 0 ds)
    end.

(** [parseInt(v)] converts its argument to a string first; [None] is the
    [TypeError] of that conversion. *)
Definition parseInt (v : value) : option number :=
  match ToString v with
  | Some s => Some (parseInt_string s)
  | None => None
  end.

End JS.

Import JS.

(** ** The world outside the program *)

Inductive Method : Type := GET | POST.

(** An axios call: [axios.get(url, {params, headers})] or
    [axios.post(url, data, {headers})]. *)
Record HttpRequest : Type := {
  req_method : Method;
  req_url : value;
  req_params : list (string * value);
  req_data : value;
  req_headers : list (string * string)
}.

(** How an axios call ends: the promise resolves with a response, it
    rejects with [error.response] set (the upstream answered with an error
    status), or it rejects without a response (transport failure).  A
    call that never settles has no outcome here. *)
Inductive HttpOutcome : Type :=
| Resolved (http_status : Z) (data : value)
| Rejected (http_status : Z) (data : value)
| Unreachable (reason : string).

(** The three upstream operations, one per helper. *)
Inductive Endpoint : Type := Auth | NameEnquiry | Collection.

(** The four places where the handler calls the record store. *)
Inductive DbCall : Type := Create | Processing | Final | Recovery.

Record World : Type := {
  (** [process.env] *)
  env : string -> option string;
  (** what the n-th reading of the clock returns *)
  now : nat -> Z;
  (** the upstream's answer to a request *)
  http : Endpoint -> HttpRequest -> HttpOutcome;
  (** [Some msg] when the store rejects that call with an error *)
  db_fault : DbCall -> option string
}.

Definition env_value (w : World) (name : string) : value :=
  match env w name with Some s => VStr s | None => VUndefined end.

(** ** The payment record *)

Inductive Status : Type := pending | processing | completed | failed.

Definition status_name (s : Status) : string :=
  match s with
  | pending => "pending"
  | processing => "processing"
  | completed => "completed"
  | failed => "failed"
  end.

(** The columns written by the handler.  [None] is SQL null. *)
Record Row : Type := {
  transactionId : string;
  nameEnquiryTransactionId : string;
  partnerCode : value;
  destBank : value;
  accountNumber : value;
  accountName : value;
  amount : number;
  narration : value;
  status : Status;
  verificationResponse : option string;
  eventId : option number;
  registrationId : option number;
  response : option string;
  completedAt : option Z
}.

(** What [prisma.payment.create] and [update] resolve to. *)
Record Payment : Type := { id : N; row : Row }.

(** The [data] of an update; [None] leaves the column as it is. *)
Record Patch : Type := {
  set_status : Status;
  set_response : option string;
  set_completedAt : option Z
}.

Definition apply_patch (p : Patch) (r : Row) : Row :=
  {| transactionId := transactionId r;
     nameEnquiryTransactionId := nameEnquiryTransactionId r;
     partnerCode := partnerCode r;
     destBank := destBank r;
     accountNumber := accountNumber r;
     accountName := accountName r;
     amount := amount r;
     narration := narration r;
     status := set_status p;
     verificationResponse := verificationResponse r;
     eventId := eventId r;
     registrationId := registrationId r;
     response := match set_response p with Some t => Some t | None => response r end;
     completedAt := match set_completedAt p with Some t => Some t | None => completedAt r end |}.

(** ** Effects *)

(** What the handler asks of the store. *)
Inductive Query : Type :=
| Insert (data : Row)
| Update (key : N) (patch : Patch).

(** Everything observable the handler does, in order.  A call to the
    store is an [EvQuery], followed by what the store did with it: the
    row it created or changed, or the error it raised. *)
Inductive Event : Type :=
| EvLog (label : string)
| EvSleep (ms : Z)
| EvHttp (ep : Endpoint) (rq : HttpRequest) (out : HttpOutcome)
| EvQuery (call : DbCall) (q : Query)
| EvCreated (p : Payment)
| EvUpdated (call : DbCall) (key : N) (before after : Row)
| EvDbError (call : DbCall) (msg : string)
| EvRespond (code : Z) (body : value).

Record State : Type := {
  (** the table of payments, by primary key *)
  store : gmap N Row;
  (** how often the clock has been read *)
  ticks : nat;
  (** the handler's [let payment] *)
  payment : option Payment;
  trace : list Event
}.

(** A thrown [Error]: its [message], and the [response] property that an
    axios rejection carries. *)
Record Error : Type := {
  message : string;
  err_response : option (Z * value)
}.

Definition mkError (msg : string) : Error :=
  {| message := msg; err_response := None |}.

Inductive Result (A : Type) : Type :=
| Ok (a : A)
| Throw (e : Error).
Arguments Ok {A} a.
Arguments Throw {A} e.

(** Computations read the world, change the state, and return or throw.
    The state reached when an error is thrown is kept. *)
Definition M (A : Type) : Type := World -> State -> Result A * State.

Definition ret {A} (a : A) : M A := fun _ st => (Ok a, st).

Definition bind {A B} (m : M A) (k : A -> M B) : M B :=
  fun w st =>
    match m w st with
    | (Ok a, st') => k a w st'
    | (Throw e, st') => (Throw e, st')
    end.

Definition throw {A} (e : Error) : M A := fun _ st => (Throw e, st).

(** [try { body } catch (error) { handler }] *)
Definition try_catch {A} (body : M A) (handler : Error -> M A) : M A :=
  fun w st =>
    match body w st with
    | (Ok a, st') => (Ok a, st')
    | (Throw e, st') => handler e w st'
    end.

Declare Scope js_scope.
Delimit Scope js_scope with js.
Notation "x <- m ;; k" := (bind m (fun x => k))
  (at level 100, m at next level, k at level 200, right associativity) : js_scope.
Notation "m ;; k" := (bind m (fun _ => k))
  (at level 100, k at level 200, right associativity) : js_scope.
Bind Scope js_scope with M.
Local Open Scope js_scope.

(** The value of an expression whose conversion may throw the
    [TypeError]. *)
Definition converted {A} (o : option A) : M A :=
  match o with
  | Some a => ret a
  | None => throw (mkError cannot_convert)
  end.

Definition emit (e : Event) : M unit :=
  fun _ st =>
    (Ok tt, {| store := store st; ticks := ticks st; payment := payment st;
               trace := trace st ++ [e] |}).

Definition ask : M World := fun w st => (Ok w, st).

(** [console.log] and [console.error], by their first argument. *)
Definition log (label : string) : M unit := emit (EvLog label).

(** [await new Promise(resolve => setTimeout(resolve, ms))] *)
Definition sleep (ms : Z) : M unit := emit (EvSleep ms).

(** [Date.now()] and [new Date()] *)
Definition Date_now : M Z :=
  fun w st =>
    (Ok (now w (ticks st)),
     {| store := store st; ticks := S (ticks st); payment := payment st;
        trace := trace st |}).

Definition get_payment : M (option Payment) := fun _ st => (Ok (payment st), st).

Definition set_payment (p : option Payment) : M unit :=
  fun _ st =>
    (Ok tt, {| store := store st; ticks := ticks st; payment := p; trace := trace st |}).

(** [res.status(code).json(body)].  The bodies sent hold JSON data and
    strings only, so serialising them does not throw. *)
Definition respond (code : Z) (body : value) : M unit := emit (EvRespond code body).

(** One axios call.  A rejection is a thrown error. *)
Definition axios (ep : Endpoint) (rq : HttpRequest) : M (Z * value) :=
  w <- ask ;;
  let out := http w ep rq in
  emit (EvHttp ep rq out) ;;
  match out with
  | Resolved s d => ret (s, d)
  | Rejected s d =>
      throw {| message := "Request failed with status code " +:+ pretty s;
               err_response := Some (s, d) |}
  | Unreachable reason => throw (mkError reason)
  end.

(** [prisma.payment.create({data})]: the store assigns an unused key.  A
    rejected call changes nothing. *)
Definition prisma_create (data : Row) : M Payment :=
  fun w st =>
    match db_fault w Create with
    | Some msg =>
        (Throw (mkError msg),
         {| store := store st; ticks := ticks st; payment := payment st;
            trace := trace st ++ [EvQuery Create (Insert data); EvDbError Create msg] |})
    | None =>
        let key := fresh (dom (store st)) in
        let p := {| id := key; row := data |} in
        (Ok p,
         {| store := <[key := data]> (store st); ticks := ticks st;
            payment := payment st;
            trace := trace st ++ [EvQuery Create (Insert data); EvCreated p] |})
    end.

Definition not_found : string := "Record to update not found.".

(** [prisma.payment.update({where: {id}, data})]: the row is replaced by
    the patched one; a rejected call changes nothing. *)
Definition prisma_update (call : DbCall) (key : N) (p : Patch) : M Payment :=
  fun w st =>
    let fail msg :=
      (Throw (mkError msg),
       {| store := store st; ticks := ticks st; payment := payment st;
          trace := trace st ++ [EvQuery call (Update key p); EvDbError call msg] |}) in
    match db_fault w call with
    | Some msg => fail msg
    | None =>
        match store st !! key with
        | None => fail not_found
        | Some r =>
            let r' := apply_patch p r in
            (Ok {| id := key; row := r' |},
             {| store := <[key := r']> (store st); ticks := ticks st;
                payment := payment st;
                trace := trace st ++ [EvQuery call (Update key p); EvUpdated call key r r'] |})
        end
    end.

(** ** The helpers of [src/index.js] *)

(** [generateTransactionID]: the prefix and the clock in milliseconds. *)
Definition generateTransactionID : M string :=
  timestamp <- Date_now ;;
  ret ("MSH-" +:+ pretty timestamp).

(** The table of the networks.  It is read with an uppercased name, which
    is never the name of a property inherited from [Object.prototype]. *)
Definition networkMap (w : World) : value :=
  VObj [("MTN", env_value w "MTN_BANK_CODE");
        ("AIRTELTIGO", env_value w "AIRTELTIGO_BANK_CODE");
        ("TELECEL", env_value w "TELECEL_BANK_CODE")].

(** [getNetworkBankCode(network)].  Calling [toUpperCase] on something
    that is not a string is a [TypeError].  Where the message quotes the
    network, the network is a string. *)
Definition getNetworkBankCode (network : value) : M value :=
  w <- ask ;;
  match network with
  | VStr s =>
      let networkUpper := trim (toUpperCase s) in
      let bankCode := member (networkMap w) networkUpper in
      if negb (truthy bankCode) then
        throw (mkError ("Invalid network: " +:+ s +:+
                        ". Supported networks: MTN, AirtelTigo, Telecel"))
      else ret bankCode
  | VUndefined | VNull =>
      throw (mkError ("Cannot read properties of " +:+ nullish_text network +:+
                      " (reading 'toUpperCase')"))
  | _ => throw (mkError "network.toUpperCase is not a function")
  end.

(** The text the upstream error handlers put into their message for a
    rejection,
    [error.response.data?.message || JSON.stringify(error.response.data)]
    inside a template literal: [None] when the message of the upstream
    is an object whose conversion throws. *)
Definition upstream_detail (data : value) : option string :=
  ToString (opt_member data "message" ||| JSON_stringify data).

(** The token is the first truthy one of the probed fields. *)
Definition extract_token (data : value) : value :=
  opt_member data "result" |||
  opt_member data "token" |||
  opt_member data "Token" |||
  opt_member data "accessToken" |||
  opt_member data "access_token" |||
  opt_member (opt_member data "data") "token" |||
  opt_member (opt_member data "data") "Token".

(** [axios.post(process.env.AUTH_API_URL, {username, userpassword})] *)
Definition auth_request (w : World) : HttpRequest :=
  {| req_method := POST;
     req_url := env_value w "AUTH_API_URL";
     req_params := [];
     req_data := VObj [("username", env_value w "USERNAME");
                       ("userpassword", env_value w "PASSWORD")];
     req_headers := [] |}.

(** [authenticate()].  The error thrown for a missing token is raised
    inside the [try], so the [catch] below rewraps it as well.  An error
    thrown while the [catch] builds its message leaves the function as it
    is. *)
Definition authenticate : M value :=
  try_catch
    (w <- ask ;;
     response <- axios Auth (auth_request w) ;;
     log "Authentication response status:" ;;
     log "Authentication response data:" ;;
     let token := extract_token (snd response) in
     if truthy token then
       log "Token extracted successfully" ;;
       ret token
     else
       throw (mkError ("Authentication failed: No token found in response. Response: "
                       +:+ JSON_text (snd response))))
    (fun error =>
       match err_response error with
       | Some (_, data) =>
           log "Authentication API error:" ;;
           detail <- converted (upstream_detail data) ;;
           throw (mkError ("Authentication error: " +:+ detail))
       | None => throw (mkError ("Authentication error: " +:+ message error))
       end).

(** [performNameEnquiry(token, partnerCode, transactionID, bankCode, necAccount)].
    The authorization header is built, and the token converted, before
    the request is sent. *)
Definition performNameEnquiry
    (token partnerCode : value) (transactionID : string)
    (bankCode necAccount : value) : M value :=
  try_catch
    (w <- ask ;;
     log "Name enquiry request params:" ;;
     bearer <- converted (ToString token) ;;
     response <- axios NameEnquiry
       {| req_method := GET;
          req_url := env_value w "NAME_ENQUIRY_API_URL";
          req_params := [("PartnerCode", partnerCode);
                         ("TransactionID", VStr transactionID);
                         ("BankCode", bankCode);
                         ("NECAccount", necAccount)];
          req_data := VUndefined;
          req_headers := [("Authorization", "Bearer " +:+ bearer)] |} ;;
     log "Name enquiry response status:" ;;
     log "Name enquiry response data:" ;;
     ret (snd response))
    (fun error =>
       match err_response error with
       | Some (_, data) =>
           log "Name enquiry API error:" ;;
           detail <- converted (upstream_detail data) ;;
           throw (mkError ("Name enquiry error: " +:+ detail))
       | None => throw (mkError ("Name enquiry error: " +:+ message error))
       end).

(** [processCollection(token, paymentData, destBank)] *)
Definition processCollection (token paymentData destBank : value) : M value :=
  try_catch
    (w <- ask ;;
     let requestBody :=
       VObj [("PartnerCode", env_value w "PARTNER_CODE");
             ("DestBank", destBank);
             ("Accountnumber", member paymentData "accountNumber");
             ("AccountName", member paymentData "accountName");
             ("Amount", member paymentData "amount");
             ("TransactionID", member paymentData "transactionID");
             ("narration", member paymentData "narration")] in
     log "Collection request body:" ;;
     bearer <- converted (ToString token) ;;
     response <- axios Collection
       {| req_method := POST;
          req_url := env_value w "COLLECTION_API_URL";
          req_params := [];
          req_data := requestBody;
          req_headers := [("Authorization", "Bearer " +:+ bearer);
                          ("Content-Type", "application/json")] |} ;;
     log "Collection response status:" ;;
     log "Collection response data:" ;;
     ret (snd response))
    (fun error =>
       match err_response error with
       | Some (_, data) =>
           log "Collection API error:" ;;
           detail <- converted (upstream_detail data) ;;
           throw (mkError ("Collection error: " +:+ detail))
       | None => throw (mkError ("Collection error: " +:+ message error))
       end).

(** ** The [/pay] handler *)

(** A field of the request body, [undefined] when absent. *)
Definition field (body : list (string * value)) (name : string) : value :=
  member (VObj body) name.

(** The account name is the first truthy one of the probed paths. *)
Definition account_name (nameEnquiryResult : value) : value :=
  opt_member (member nameEnquiryResult "data") "nametocredit" |||
  opt_member (member nameEnquiryResult "data") "NameToCredit" |||
  member nameEnquiryResult "nametocredit" |||
  member nameEnquiryResult "accountName" |||
  member nameEnquiryResult "AccountName" |||
  member nameEnquiryResult "name" |||
  member nameEnquiryResult "Name".

(** The first path reads a property of the result itself, which throws
    when the upstream body was [null]. *)
Definition extract_account_name (nameEnquiryResult : value) : M value :=
  if nullish nameEnquiryResult then
    throw (mkError ("Cannot read properties of " +:+ nullish_text nameEnquiryResult +:+
                    " (reading 'data')"))
  else ret (account_name nameEnquiryResult).

(** [collectionResult?.message?.status || collectionResult?.data?.status]:
    the status code is [message.status] when that is truthy, [data.status]
    otherwise. *)
Definition collectionStatus (collectionResult : value) : value :=
  opt_member (opt_member collectionResult "message") "status" |||
  opt_member (opt_member collectionResult "data") "status".

(** [v === s] for a string literal [s] *)
Definition is_string (v : value) (s : string) : bool :=
  match v with VStr t => String.eqb t s | _ => false end.

Definition isSuccess (collectionResult : value) : bool :=
  is_string (collectionStatus collectionResult) "000" ||
  is_string (collectionStatus collectionResult) "0".

Definition default_narration : value := VStr "Payment Gateway Transaction".

(** [v ? parseInt(v) : null], which throws when the conversion of a
    truthy [v] does. *)
Definition optional_int (v : value) : option (option number) :=
  if truthy v then
    match parseInt v with
    | Some n => Some (Some n)
    | None => None
    end
  else Some None.

Definition missing_fields_body : value :=
  VObj [("success", VBool false);
        ("message", VStr "Missing required fields: accountNumber, amount, network")].

Definition bad_request_body (msg : string) : value :=
  VObj [("success", VBool false); ("message", VStr msg)].

Definition failure_body (msg : string) : value :=
  VObj [("success", VBool false);
        ("message", VStr "Payment processing failed");
        ("error", VStr msg)].

Definition success_body (p : Payment) (nameEnquiryTransactionID collectionTransactionID : string)
    (nameEnquiryResult collectionResult : value) : value :=
  VObj [("success", VBool true);
        ("message", VStr "Payment processed successfully");
        ("paymentId", VStr (pretty (id p)));
        ("nameEnquiryTransactionID", VStr nameEnquiryTransactionID);
        ("collectionTransactionID", VStr collectionTransactionID);
        ("status", VStr (status_name (status (row p))));
        ("data", VObj [("nameEnquiry", nameEnquiryResult);
                       ("collection", collectionResult)])].

(** The body of the handler's [try], from the bank code on.  The
    properties of the record to insert are evaluated in the order they
    are written, before the insert is called: [parseFloat(amount)], then
    the two optional references. *)
Definition pay_pipeline (body : list (string * value))
    (nameEnquiryTransactionID collectionTransactionID : string) (bankCode : value) : M unit :=
  let accountNumber := field body "accountNumber" in
  let amount := field body "amount" in
  let narration := field body "narration" in
  let eventId := field body "eventId" in
  let registrationId := field body "registrationId" in
  w <- ask ;;
  log "Step 1: Authenticating..." ;;
  token <- authenticate ;;
  log "Authentication successful" ;;
  log "Step 2: Performing name enquiry..." ;;
  nameEnquiryResult <-
    performNameEnquiry token (env_value w "PARTNER_CODE")
                       nameEnquiryTransactionID bankCode accountNumber ;;
  log "Name enquiry successful:" ;;
  accountName <- extract_account_name nameEnquiryResult ;;
  if negb (truthy accountName) then
    throw (mkError "Account name not found in name enquiry response")
  else
    log "Verified Account Name:" ;;
    parsedAmount <- converted (parseFloat amount) ;;
    parsedEventId <- converted (optional_int eventId) ;;
    parsedRegistrationId <- converted (optional_int registrationId) ;;
    created <- prisma_create
      {| transactionId := collectionTransactionID;
         nameEnquiryTransactionId := nameEnquiryTransactionID;
         partnerCode := env_value w "PARTNER_CODE";
         destBank := bankCode;
         accountNumber := accountNumber;
         accountName := accountName;
         amount := parsedAmount;
         narration := narration ||| default_narration;
         status := pending;
         verificationResponse := stringify nameEnquiryResult;
         eventId := parsedEventId;
         registrationId := parsedRegistrationId;
         response := None;
         completedAt := None |} ;;
    set_payment (Some created) ;;
    log "Payment record created with ID:" ;;
    prisma_update Processing (id created)
      {| set_status := processing; set_response := None; set_completedAt := None |} ;;
    log "Step 3: Processing collection..." ;;
    collectionResult <-
      processCollection token
        (VObj [("accountNumber", accountNumber);
               ("accountName", accountName);
               ("amount", amount);
               ("transactionID", VStr collectionTransactionID);
               ("narration", narration ||| default_narration)])
        bankCode ;;
    log "Collection successful:" ;;
    completed_at <- Date_now ;;
    updated <- prisma_update Final (id created)
      {| set_status := if isSuccess collectionResult then completed else failed;
         set_response := stringify collectionResult;
         set_completedAt := Some completed_at |} ;;
    set_payment (Some updated) ;;
    log "Payment record updated to status:" ;;
    respond 200
      (success_body updated nameEnquiryTransactionID collectionTransactionID
                    nameEnquiryResult collectionResult).

(** The handler's [try] block.  A [return res.status(400)...] leaves the
    handler without entering the [catch]. *)
Definition pay_try (body : list (string * value)) : M unit :=
  let accountNumber := field body "accountNumber" in
  let amount := field body "amount" in
  let network := field body "network" in
  if negb (truthy accountNumber) || negb (truthy amount) || negb (truthy network) then
    respond 400 missing_fields_body
  else
    nameEnquiryTransactionID <- generateTransactionID ;;
    log "Generated Name Enquiry TransactionID:" ;;
    sleep 10 ;;
    collectionTransactionID <- generateTransactionID ;;
    log "Generated Collection TransactionID:" ;;
    resolved <-
      try_catch
        (bankCode <- getNetworkBankCode network ;; ret (Some bankCode))
        (fun error => respond 400 (bad_request_body (message error)) ;; ret None) ;;
    match resolved with
    | None => ret tt
    | Some bankCode =>
        pay_pipeline body nameEnquiryTransactionID collectionTransactionID bankCode
    end.

(** The handler's [catch] block: mark the record failed if there is one,
    swallowing a failure of that update, then answer 500. *)
Definition pay_catch (error : Error) : M unit :=
  log "Payment processing error:" ;;
  current <- get_payment ;;
  match current with
  | Some p =>
      try_catch
        (completed_at <- Date_now ;;
         prisma_update Recovery (id p)
           {| set_status := failed;
              set_response := stringify (VObj [("error", VStr (message error))]);
              set_completedAt := Some completed_at |} ;;
         ret tt)
        (fun dbError => log "Failed to update payment status:")
  | None => ret tt
  end ;;
  respond 500 (failure_body (message error)).

(** [app.post('/pay', async (req, res) => ...)] applied to [req.body],
    the object [express.json()] parsed. *)
Definition pay (body : list (string * value)) : M unit :=
  set_payment None ;;
  try_catch (pay_try body) pay_catch.

(** Running the handler: the state it leaves. *)
Definition run (w : World) (body : list (string * value)) (st : State) : State :=
  snd (pay body w st).

(** The events a run adds to the trace. *)
Definition events (w : World) (body : list (string * value)) (st : State) : list Event :=
  drop (length (trace st)) (trace (run w body st)).

(** Requests served one after the other, each in its own world. *)
Fixpoint serve (requests : list (World * list (string * value))) (st : State) : State :=
  match requests with
  | [] => st
  | (w, body) :: later => serve later (run w body st)
  end.

(** ** Reading a run *)

(** The records a run inserted. *)
Definition created (evs : list Event) : list Payment :=
  flat_map (fun e => match e with EvCreated p => [p] | _ => [] end) evs.

Definition terminal (s : Status) : bool :=
  match s with completed | failed => true | pending | processing => false end.

(** The order of the life cycle: pending, then processing, then one of
    the two terminal statuses. *)
Definition rank (s : Status) : nat :=
  match s with pending => 0 | processing => 1 | completed | failed => 2 end.

(** What an event does to the table. *)
Definition apply_event (e : Event) (s : gmap N Row) : gmap N Row :=
  match e with
  | EvCreated p => <[id p := row p]> s
  | EvUpdated _ key _ after => <[key := after]> s
  | _ => s
  end.

Definition replay (evs : list Event) (s : gmap N Row) : gmap N Row :=
  fold_left (fun acc e => apply_event e acc) evs s.

(** A legal step of the table: an insert writes a pending row under an
    unused key; an update finds the row it reports and moves its status
    strictly forward. *)
Definition legal (s : gmap N Row) (e : Event) : Prop :=
  match e with
  | EvCreated p => s !! id p = None /\ status (row p) = pending
  | EvUpdated _ key before after =>
      s !! key = Some before /\ (rank (status before) < rank (status after))%nat
  | _ => True
  end.

Fixpoint lawful (s : gmap N Row) (evs : list Event) : Prop :=
  match evs with
  | [] => True
  | e :: rest => legal s e /\ lawful (apply_event e s) rest
  end.

Definition same_endpoint (a b : Endpoint) : bool :=
  match a, b with
  | Auth, Auth | NameEnquiry, NameEnquiry | Collection, Collection => true
  | _, _ => false
  end.

Definition same_call (a b : DbCall) : bool :=
  match a, b with
  | Create, Create | Processing, Processing | Final, Final | Recovery, Recovery => true
  | _, _ => false
  end.

(** The requests a run sent to an endpoint, with their outcomes. *)
Definition calls (ep : Endpoint) (evs : list Event) : list (HttpRequest * HttpOutcome) :=
  flat_map (fun e =>
    match e with
    | EvHttp ep' rq out => if same_endpoint ep ep' then [(rq, out)] else []
    | _ => []
    end) evs.

(** The updates the store carried out for a call site: key, row before
    and row after. *)
Definition updates (call : DbCall) (evs : list Event) : list (N * Row * Row) :=
  flat_map (fun e =>
    match e with
    | EvUpdated call' key before after =>
        if same_call call call' then [(key, before, after)] else []
    | _ => []
    end) evs.

(** All the updates the store carried out, with their call site. *)
Definition transitions (evs : list Event) : list (DbCall * N * Row * Row) :=
  flat_map (fun e =>
    match e with
    | EvUpdated call key before after => [(call, key, before, after)]
    | _ => []
    end) evs.

(** What the handler asked of the store at a call site. *)
Definition queries (call : DbCall) (evs : list Event) : list Query :=
  flat_map (fun e =>
    match e with
    | EvQuery call' q => if same_call call call' then [q] else []
    | _ => []
    end) evs.

(** The errors with which the store rejected a call. *)
Definition db_errors (call : DbCall) (evs : list Event) : list string :=
  flat_map (fun e =>
    match e with
    | EvDbError call' msg => if same_call call call' then [msg] else []
    | _ => []
    end) evs.

(** ** The properties as the specification words them *)

(** What a helper surfaces of a rejection: the message of the upstream
    when it has a truthy one, else its payload, serialised. *)
Definition surfaced (d : value) : value :=
  if truthy (opt_member d "message") then opt_member d "message"
  else match stringify d with Some t => VStr t | None => VUndefined end.

(** The fields [authenticate] probes, in the order of the source. *)
Definition token_probes (data : value) : list value :=
  [opt_member data "result";
   opt_member data "token";
   opt_member data "Token";
   opt_member data "accessToken";
   opt_member data "access_token";
   opt_member (opt_member data "data") "token";
   opt_member (opt_member data "data") "Token"].

Definition present (v : value) : bool :=
  match v with VUndefined => false | _ => true end.

(** The environment variable that holds the bank code of a network. *)
Definition bank_code_variable (name : string) : option string :=
  if String.eqb name "MTN" then Some "MTN_BANK_CODE"
  else if String.eqb name "AIRTELTIGO" then Some "AIRTELTIGO_BANK_CODE"
  else if String.eqb name "TELECEL" then Some "TELECEL_BANK_CODE"
  else None.

(** The network name is not in the table, or its code is unset or empty. *)
Definition unsupported (w : World) (network : string) : Prop :=
  match bank_code_variable (trim (toUpperCase network)) with
  | None => True
  | Some var => env w var = None \/ env w var = Some ""
  end.

Fixpoint contains (needle hay : string) : bool :=
  String.prefix needle hay ||
  match hay with
  | String _ rest => contains needle rest
  | EmptyString => false
  end.


(** The two status codes of a collection response, [message.status] and
    [data.status]. *)
Definition message_status (d : value) : value :=
  opt_member (opt_member d "message") "status".

Definition data_status (d : value) : value :=
  opt_member (opt_member d "data") "status".

(** The codes that stand for a success: the strings 000 and 0. *)
Definition success_code (v : value) : bool :=
  match v with
  | VStr s => String.eqb s "000" || String.eqb s "0"
  | _ => false
  end.

(** The final update is to completed exactly when one of the two status
    codes is a success code. *)
Definition completed_when_a_status_succeeds : Prop :=
  forall w body st rq c d key patch,
    In (rq, Resolved c d) (calls Collection (events w body st)) ->
    In (Update key patch) (queries Final (events w body st)) ->
    (set_status patch = completed <->
     success_code (message_status d) = true \/ success_code (data_status d) = true).

(** Authentication did not yield a token. *)
Definition authentication_failed (out : HttpOutcome) : Prop :=
  match out with
  | Resolved _ d => truthy (extract_token d) = false
  | _ => True
  end.

(** Name enquiry failed, or its answer holds no account name. *)
Definition enquiry_failed (out : HttpOutcome) : Prop :=
  match out with
  | Resolved _ d => truthy (account_name d) = false
  | _ => True
  end.

(** Name enquiry answered and an account name could be read. *)
Definition verified_in (evs : list Event) : Prop :=
  exists rq c d,
    In (rq, Resolved c d) (calls NameEnquiry evs) /\
    truthy (account_name d) = true.

Definition verified (w : World) (body : list (string * value)) (st : State) : Prop :=
  verified_in (events w body st).

(** One record was created and it is terminal when the response, the
    last event, is sent. *)
Definition settled (w : World) (body : list (string * value)) (st : State) : Prop :=
  exists p r code resp,
    created (events w body st) = [p] /\
    store (run w body st) !! id p = Some r /\
    terminal (status r) = true /\
    last (events w body st) = Some (EvRespond code resp).

Definition every_verified_request_settles : Prop :=
  forall w body st, verified w body st -> settled w body st.

(** Answered 400 with a message that lists the supported networks;
    nothing was requested upstream and nothing was stored. *)
Definition rejected_naming_networks (w : World) (body : list (string * value))
    (st : State) : Prop :=
  exists msg,
    last (events w body st) = Some (EvRespond 400 (bad_request_body msg)) /\
    contains "MTN, AirtelTigo, Telecel" msg = true /\
    (forall ep, calls ep (events w body st) = []) /\
    created (events w body st) = [] /\
    store (run w body st) = store st.

Definition every_unsupported_network_is_named : Prop :=
  forall w body st network,
    field body "network" = VStr network ->
    unsupported w network ->
    rejected_naming_networks w body st.

(** [authenticate] returns the first probed field that is present. *)
Definition returns_first_present : Prop :=
  forall w st c d tok,
    http w Auth (auth_request w) = Resolved c d ->
    List.find present (token_probes d) = Some tok ->
    fst (authenticate w st) = Ok tok.

(** ** Sample requests and worlds *)

Definition lookup_env (table : list (string * string)) (name : string) : option string :=
  match List.find (fun kv => String.eqb name (fst kv)) table with
  | Some kv => Some (snd kv)
  | None => None
  end.

(** The settings of the deployment guide. *)
Definition sample_env : string -> option string :=
  lookup_env
    [("PARTNER_CODE", "MSH");
     ("MTN_BANK_CODE", "300591");
     ("AIRTELTIGO_BANK_CODE", "300592");
     ("TELECEL_BANK_CODE", "300594");
     ("AUTH_API_URL", "https://dcmapitest.dcm-gh.com/User/Login");
     ("COLLECTION_API_URL", "https://dcmapitest.dcm-gh.com/Transaction/Collection");
     ("NAME_ENQUIRY_API_URL", "https://dcmapisandbox.dcm-gh.com/Transaction/NameEnquiry")].

(** A world given by the three upstream answers and the store's faults. *)
Definition sample_world (auth enquiry collection : HttpOutcome)
    (fault : DbCall -> option string) : World :=
  {| env := sample_env;
     now := fun n => 1700000000000 + 10 * Z.of_nat n;
     http := fun ep _ =>
       match ep with
       | Auth => auth
       | NameEnquiry => enquiry
       | Collection => collection
       end;
     db_fault := fault |}.

Definition no_fault : DbCall -> option string := fun _ => None.

Definition token_answer : HttpOutcome :=
  Resolved 200 (VObj [("token", VStr "tok")]).

Definition name_answer : HttpOutcome :=
  Resolved 200 (VObj [("data", VObj [("nametocredit", VStr "AMA MENSAH")])]).

Definition collection_answer (code : string) : HttpOutcome :=
  Resolved 200 (VObj [("message", VObj [("status", VStr code)])]).

Definition empty_state : State :=
  {| store := ∅; ticks := 0; payment := None; trace := [] |}.

Definition fifty : value := VNum (Finite false 50 0).

Definition sample_body : list (string * value) :=
  [("accountNumber", VStr "0241234567"); ("amount", fifty); ("network", VStr "MTN")].

(** A store that rejects the insert, as it does when the transaction
    identifier is already taken. *)
Definition rejecting_insert : DbCall -> option string :=
  fun call =>
    match call with
    | Create => Some "Unique constraint failed on the fields: (transactionId)"
    | _ => None
    end.

(** ** Further readings of a run *)

(** The responses a run sent. *)
Definition responses (evs : list Event) : list (Z * value) :=
  flat_map (fun e => match e with EvRespond code body => [(code, body)] | _ => [] end) evs.

(** Everything the handler asked of the store, with the call site. *)
Definition all_queries (evs : list Event) : list (DbCall * Query) :=
  flat_map (fun e => match e with EvQuery call q => [(call, q)] | _ => [] end) evs.

(** A header of a request. *)
Definition header (name : string) (rq : HttpRequest) : option string :=
  lookup_env (req_headers rq) name.

(** Where the first event of a kind stands in a run. *)
Fixpoint position (kind : Event -> bool) (evs : list Event) : option nat :=
  match evs with
  | [] => None
  | e :: rest =>
      if kind e then Some O
      else match position kind rest with Some n => Some (S n) | None => None end
  end.

(** Whenever a [later] event occurs, an [earlier] one stands before it. *)
Definition precedes (earlier later : Event -> bool) (evs : list Event) : Prop :=
  forall n, position later evs = Some n ->
  exists m, position earlier evs = Some m /\ (m < n)%nat.

Definition is_call (ep : Endpoint) (e : Event) : bool :=
  match e with EvHttp ep' _ _ => same_endpoint ep ep' | _ => false end.

Definition is_insert (e : Event) : bool :=
  match e with EvCreated _ => true | _ => false end.

Definition is_update (call : DbCall) (e : Event) : bool :=
  match e with EvUpdated call' _ _ _ => same_call call call' | _ => false end.

Definition is_response (e : Event) : bool :=
  match e with EvRespond _ _ => true | _ => false end.

(** A string of white space only. *)
Fixpoint blank (s : string) : bool :=
  match s with
  | EmptyString => true
  | String c rest => is_space c && blank rest
  end.

(** The message of the error a helper throws, or the handler after it,
    for an outcome of its upstream call that does not let the pipeline go
    on: the label of the step followed by what the helper surfaces of a
    rejection or by the transport error.  When what is surfaced cannot be
    converted to a string, the error is the [TypeError] of the
    conversion, without a label. *)
Definition failure_text (ep : Endpoint) (out : HttpOutcome) : string :=
  let label :=
    match ep with
    | Auth => "Authentication error: "
    | NameEnquiry => "Name enquiry error: "
    | Collection => "Collection error: "
    end in
  match out with
  | Rejected _ d =>
      match ToString (surfaced d) with
      | Some detail => label +:+ detail
      | None => cannot_convert
      end
  | Unreachable reason => label +:+ reason
  | Resolved _ d =>
      match ep with
      | Auth =>
          label +:+ "Authentication failed: No token found in response. Response: "
                +:+ JSON_text d
      | NameEnquiry =>
          if nullish d then
            "Cannot read properties of " +:+ nullish_text d +:+ " (reading 'data')"
          else "Account name not found in name enquiry response"
      | Collection => ""
      end
  end.

(** The outcome of an upstream call after which the pipeline does not go
    on: authentication without a token, name enquiry without an account
    name, a collection that was not answered. *)
Definition halts (ep : Endpoint) (out : HttpOutcome) : Prop :=
  match ep with
  | Auth => authentication_failed out
  | NameEnquiry => enquiry_failed out
  | Collection => match out with Resolved _ _ => False | _ => True end
  end.

Definition has {A} (o : option A) : bool :=
  match o with Some _ => true | None => false end.

(** The amount and the optional references of a request can be parsed:
    [parseFloat] and [parseInt] do not throw on them. *)
Definition convertible (body : list (string * value)) : bool :=
  has (parseFloat (field body "amount")) &&
  has (optional_int (field body "eventId")) &&
  has (optional_int (field body "registrationId")).

(** A row is consistent when it has a completion time exactly when its
    status is terminal, and a response only then. *)
Definition consistent (r : Row) : bool :=
  Bool.eqb (has (completedAt r)) (terminal (status r)) &&
  implb (has (response r)) (terminal (status r)).

(** No two records of a table share a collection identifier. *)
Definition unique_identifiers (s : gmap N Row) : Prop :=
  forall k1 k2 r1 r2,
    s !! k1 = Some r1 -> s !! k2 = Some r2 ->
    transactionId r1 = transactionId r2 -> k1 = k2.

(** Every record of the table got its collection identifier from a
    reading of the clock that the state has behind it. *)
Definition stamped (clock : nat -> Z) (st : State) : Prop :=
  forall key r,
    store st !! key = Some r ->
    exists n, (n < ticks st)%nat /\ transactionId r = "MSH-" +:+ pretty (clock n).

Fixpoint all_digits (s : string) : bool :=
  match s with
  | EmptyString => true
  | String c rest => is_digit c && all_digits rest
  end.

(** The number [n], as [parseInt] returns it. *)
Definition whole_number (n : N) : number :=
  let '(m, e) := canon n 0 in Finite false m e.

(** ** Symbolic execution of the handler *)

(** [wp m w st Q]: running [m] in [w] from [st] ends in a result and a
    state that satisfy [Q]. *)
Definition wp {A} (m : M A) (w : World) (st : State)
    (Q : Result A -> State -> Prop) : Prop :=
  Q (fst (m w st)) (snd (m w st)).

(** States are kept in the shape [at_ s t p t0 new]: the trace is the
    initial one followed by the new events, latest first. *)
Definition at_ (s : gmap N Row) (t : nat) (p : option Payment)
    (t0 new : list Event) : State :=
  {| store := s; ticks := t; payment := p; trace := (t0 ++ rev new)%list |}.

(** What is shown of a run: a property of the final state and of the
    events added. *)
Definition post (t0 : list Event) (P : State -> list Event -> Prop)
    (r : Result unit) (st' : State) : Prop :=
  exists evs, trace st' = (t0 ++ evs)%list /\ P st' evs.

(** ** The builtins on small inputs *)

Example truthy_values :
  map truthy [VStr "0"; VNum (Finite false 5 1); VArr []; VObj []; VNum (Infinity true)] =
    [true; true; true; true; true] /\
  map truthy [VUndefined; VNull; VBool false; VNum NaN; VNum (Finite true 0 0); VStr ""] =
    [false; false; false; false; false; false].
Proof. split; reflexivity. Qed.

Example network_name_normalised :
  trim (toUpperCase "  AirtelTigo ") = "AIRTELTIGO" /\ trim (toUpperCase "mtn") = "MTN".
Proof. split; reflexivity. Qed.

Example parseFloat_reads_prefix :
  parseFloat (VStr "  12.50abc") = Some (Finite false 125 (-1)) /\
  parseFloat (VStr "1e3") = Some (Finite false 1 3) /\
  parseFloat (VStr ".5") = Some (Finite false 5 (-1)) /\
  parseFloat (VStr "-Infinity") = Some (Infinity true) /\
  parseFloat (VStr "12abc") = Some (Finite false 12 0) /\
  parseFloat (VStr "abc") = Some NaN /\
  parseFloat (VStr "e5") = Some NaN /\
  parseFloat (VNum (Finite false 50 0)) = Some (Finite false 5 1) /\
  parseFloat (VBool true) = Some NaN /\
  parseFloat (VArr [VStr "7.5"]) = Some (Finite false 75 (-1)) /\
  parseFloat (VObj [("value", VNum (Finite false 5 0))]) = Some NaN.
Proof. repeat split; reflexivity. Qed.

Example parseInt_reads_prefix :
  parseInt (VStr "42") = Some (Finite false 42 0) /\
  parseInt (VStr "12.7") = Some (Finite false 12 0) /\
  parseInt (VStr "0x1F") = Some (Finite false 31 0) /\
  parseInt (VStr "seven") = Some NaN.
Proof. repeat split; reflexivity. Qed.

(** An object with a property of its own named [toString] cannot be
    converted, nor an array that holds one: the conversion throws. *)
Example conversion_throws :
  let odd := VObj [("toString", VNum (Finite false 1 0))] in
  ToString odd = None /\
  ToString (VArr [VStr "a"; odd]) = None /\
  parseFloat odd = None /\
  parseInt odd = None /\
  optional_int odd = None /\
  optional_int VUndefined = Some None /\
  upstream_detail (VObj [("message", odd)]) = None /\
  upstream_detail (VObj [("message", VStr "Invalid credentials")]) =
    Some "Invalid credentials" /\
  ToString (VObj [("valueOf", VNum (Finite false 1 0))]) = Some "[object Object]".
Proof. repeat split; reflexivity. Qed.

Example numbers_print :
  map number_to_string
      [Finite false 5 1; Finite false 125 (-1); Finite true 1 (-7); Finite false 1 21;
       Finite false 123 (-5); Finite false 0 0; NaN] =
    ["50"; "12.5"; "-1e-7"; "1e+21"; "0.00123"; "0"; "NaN"].
Proof. reflexivity. Qed.

Example values_print :
  ToString (VArr [VNum (Finite false 1 0); VNull; VStr "a"; VObj []]) =
    Some "1,,a,[object Object]" /\
  stringify (VArr [VNum (Finite false 1 0); VUndefined; VBool true; VNum NaN]) =
    Some "[1,null,true,null]" /\
  stringify (VObj [("a", VUndefined)]) = Some "{}" /\
  stringify VUndefined = None.
Proof. repeat split; reflexivity. Qed.

Example status_code_read :
  isSuccess (VObj [("message", VObj [("status", VStr "000")])]) = true /\
  isSuccess (VObj [("data", VObj [("status", VStr "0")])]) = true /\
  isSuccess (VObj [("message", VObj [("status", VStr "01")])]) = false /\
  isSuccess (VObj [("data", VObj [("status", VNum (Finite false 0 0))])]) = false /\
  isSuccess VNull = false.
Proof. repeat split; reflexivity. Qed.

(** ** Rules of the symbolic execution *)

Section Rules.
Context {A B : Type} (w : World) (st : State).

Lemma wp_ret (a : A) Q : Q (Ok a) st -> wp (ret a) w st Q.
Proof. exact (fun H => H). Qed.

Lemma wp_throw (e : Error) (Q : Result A -> State -> Prop) :
  Q (Throw e) st -> wp (throw e) w st Q.
Proof. exact (fun H => H). Qed.

Lemma wp_bind (m : M A) (k : A -> M B) Q :
  wp m w st (fun r st' =>
    match r with
    | Ok a => wp (k a) w st' Q
    | Throw e => Q (Throw e) st'
    end) ->
  wp (bind m k) w st Q.
Proof. unfold wp, bind. destruct (m w st) as [[a|e] st']; auto. Qed.

Lemma wp_try_catch (body : M A) (handler : Error -> M A) Q :
  wp body w st (fun r st' =>
    match r with
    | Ok a => Q (Ok a) st'
    | Throw e => wp (handler e) w st' Q
    end) ->
  wp (try_catch body handler) w st Q.
Proof. unfold wp, try_catch. destruct (body w st) as [[a|e] st']; auto. Qed.

Lemma wp_ask Q : Q (Ok w) st -> wp ask w st Q.
Proof. exact (fun H => H). Qed.

Lemma wp_get_payment Q : Q (Ok (payment st)) st -> wp get_payment w st Q.
Proof. exact (fun H => H). Qed.
End Rules.

Lemma trace_two (t0 new : list Event) a b :
  ((t0 ++ rev new) ++ [a; b] = t0 ++ rev (b :: a :: new))%list.
Proof. cbn [rev]. by rewrite <- !app_assoc. Qed.

Section StateRules.
Context (w : World) (s : gmap N Row) (t : nat) (p : option Payment)
  (t0 new : list Event).

Lemma wp_emit e Q :
  Q (Ok tt) (at_ s t p t0 (e :: new)) -> wp (emit e) w (at_ s t p t0 new) Q.
Proof. unfold wp, emit, at_. cbn. by rewrite app_assoc. Qed.

Lemma wp_Date_now Q :
  Q (Ok (now w t)) (at_ s (S t) p t0 new) -> wp Date_now w (at_ s t p t0 new) Q.
Proof. exact (fun H => H). Qed.

Lemma wp_set_payment p' Q :
  Q (Ok tt) (at_ s t p' t0 new) -> wp (set_payment p') w (at_ s t p t0 new) Q.
Proof. exact (fun H => H). Qed.

Lemma wp_axios ep rq Q :
  (forall out, http w ep rq = out ->
     Q (match out with
        | Resolved c d => Ok (c, d)
        | Rejected c d =>
            Throw {| message := "Request failed with status code " +:+ pretty c;
                     err_response := Some (c, d) |}
        | Unreachable reason => Throw (mkError reason)
        end)
       (at_ s t p t0 (EvHttp ep rq out :: new))) ->
  wp (axios ep rq) w (at_ s t p t0 new) Q.
Proof.
  intros H. specialize (H _ eq_refl). revert H.
  unfold wp, axios, bind, ask, emit, ret, throw, at_. cbn.
  rewrite <- app_assoc. destruct (http w ep rq); auto.
Qed.

Lemma wp_prisma_create data Q :
  (forall msg, db_fault w Create = Some msg ->
     Q (Throw (mkError msg))
       (at_ s t p t0 (EvDbError Create msg :: EvQuery Create (Insert data) :: new))) ->
  (db_fault w Create = None ->
   forall key r, key = fresh (dom s) -> r = data ->
     Q (Ok {| id := key; row := r |})
       (at_ (<[key := r]> s) t p t0
            (EvCreated {| id := key; row := r |} :: EvQuery Create (Insert r) :: new))) ->
  wp (prisma_create data) w (at_ s t p t0 new) Q.
Proof.
  intros Hbad Hgood. unfold wp, prisma_create, at_ in *. cbn.
  destruct (db_fault w Create) as [msg|]; cbn [fst snd trace]; rewrite trace_two.
  - by apply Hbad.
  - by apply Hgood.
Qed.

Lemma wp_prisma_update call key patch Q :
  (forall msg, db_fault w call = Some msg ->
     Q (Throw (mkError msg))
       (at_ s t p t0 (EvDbError call msg :: EvQuery call (Update key patch) :: new))) ->
  (db_fault w call = None -> s !! key = None ->
     Q (Throw (mkError not_found))
       (at_ s t p t0 (EvDbError call not_found :: EvQuery call (Update key patch) :: new))) ->
  (db_fault w call = None ->
   forall r r', s !! key = Some r -> r' = apply_patch patch r ->
     Q (Ok {| id := key; row := r' |})
       (at_ (<[key := r']> s) t p t0
            (EvUpdated call key r r' :: EvQuery call (Update key patch) :: new))) ->
  wp (prisma_update call key patch) w (at_ s t p t0 new) Q.
Proof.
  intros Hbad Hmiss Hgood. unfold wp, prisma_update, at_ in *. cbn.
  destruct (db_fault w call) as [msg|].
  - cbn [fst snd trace]. rewrite trace_two. by apply Hbad.
  - destruct (s !! key) as [r|] eqn:Hr; cbn [fst snd trace]; rewrite trace_two.
    + by eapply Hgood.
    + by apply Hmiss.
Qed.

Lemma post_leaf P r :
  P (at_ s t p t0 new) (rev new) -> post t0 P r (at_ s t p t0 new).
Proof. intros H. exists (rev new). by split. Qed.
End StateRules.

(** A property of the final state and of the added events holds of a run
    when it holds at the end of every path. *)
Lemma pay_wp w body st (P : State -> list Event -> Prop) :
  wp (pay body) w (at_ (store st) (ticks st) (payment st) (trace st) [])
     (post (trace st) P) ->
  P (run w body st) (events w body st).
Proof.
  unfold at_. cbn [rev]. rewrite app_nil_r. destruct st as [s t p t0]. cbn.
  unfold wp, post, run, events. intros (evs & Hevs & H).
  cbn [trace]. by rewrite Hevs, drop_app_length.
Qed.

Ltac wp_simpl :=
  cbv beta iota zeta delta [fst snd id row message err_response mkError].

(** Use what is known of a test, or split on it. *)
Ltac use_or_split x :=
  first
    [ match goal with H : x = _ |- _ => rewrite H end
    | destruct x eqn:? ].

Ltac wp_step :=
  lazymatch goal with
  | |- wp (bind _ _) _ _ _ => apply wp_bind
  | |- wp (try_catch _ _) _ _ _ => apply wp_try_catch
  | |- wp (ret _) _ _ _ => apply wp_ret
  | |- wp (throw _) _ _ _ => apply wp_throw
  | |- wp (emit _) _ _ _ => apply wp_emit
  | |- wp (log _) _ _ _ => apply wp_emit
  | |- wp (sleep _) _ _ _ => apply wp_emit
  | |- wp (respond _ _) _ _ _ => apply wp_emit
  | |- wp ask _ _ _ => apply wp_ask
  | |- wp Date_now _ _ _ => apply wp_Date_now
  | |- wp get_payment _ _ _ =>
      apply wp_get_payment; unfold at_ at 1; cbv beta iota delta [payment]
  | |- wp (set_payment _) _ _ _ => apply wp_set_payment
  | |- wp (axios ?ep ?rq) ?w _ _ =>
      apply wp_axios;
      let out := fresh "out" in
      let H := fresh "Hhttp" in
      intros out H;
      first [ match goal with H' : http w ep rq = _ |- _ => rewrite H' in H; subst out end
            | destruct out ]
  | |- wp (prisma_create _) ?w _ _ =>
      apply wp_prisma_create;
      [ let msg := fresh "msg" in
        let H := fresh "Hcreate" in
        intros msg H;
        try match goal with H' : db_fault w Create = None |- _ => congruence end
      | let H := fresh "Hcreate" in
        let k := fresh "key" in
        let r := fresh "r" in
        let Hk := fresh "Hkey" in
        let Hr := fresh "Hrow" in
        intros H k r Hk Hr;
        try match goal with H' : db_fault w Create = Some _ |- _ => congruence end ]
  | |- wp (prisma_update ?c _ _) ?w _ _ =>
      apply wp_prisma_update;
      [ let msg := fresh "msg" in
        let H := fresh "Hupdate" in
        intros msg H;
        try match goal with H' : db_fault w c = None |- _ => congruence end
      | let H := fresh "Hupdate" in
        let Hm := fresh "Hmiss" in
        intros H Hm; try (rewrite lookup_insert_eq in Hm; discriminate Hm)
      | let H := fresh "Hupdate" in
        let r := fresh "r" in
        let r' := fresh "r" in
        let Hl := fresh "Hfound" in
        let Hr := fresh "Hrow" in
        intros H r r' Hl Hr;
        try match goal with H' : db_fault w c = Some _ |- _ => congruence end;
        try (rewrite lookup_insert_eq in Hl; injection Hl as <-) ]
  | |- wp (if ?b then _ else _) _ _ _ =>
      lazymatch b with
      | context [truthy ?v] => use_or_split (truthy v)
      | context [nullish ?v] => use_or_split (nullish v)
      | _ => use_or_split b
      end; cbn [negb orb andb]
  | |- wp (match ?x with _ => _ end) _ _ _ => use_or_split x
  | |- wp (converted _) _ _ _ => unfold converted
  | |- wp generateTransactionID _ _ _ => unfold generateTransactionID
  | |- wp (getNetworkBankCode _) _ _ _ => unfold getNetworkBankCode
  | |- wp authenticate _ _ _ => unfold authenticate
  | |- wp (performNameEnquiry _ _ _ _ _) _ _ _ => unfold performNameEnquiry
  | |- wp (processCollection _ _ _) _ _ _ => unfold processCollection
  | |- wp (extract_account_name _) _ _ _ => unfold extract_account_name
  | |- wp (pay_pipeline _ _ _ _) _ _ _ => unfold pay_pipeline
  | |- wp (pay_try _) _ _ _ => unfold pay_try
  | |- wp (pay_catch _) _ _ _ => unfold pay_catch
  | |- wp (pay _) _ _ _ => unfold pay
  end; wp_simpl.

(** Run the handler to the end of each path. *)
Ltac wp_run := repeat wp_step; try (apply post_leaf; cbn [rev app]).

Lemma fresh_key_unused (s : gmap N Row) : s !! fresh (dom s) = None.
Proof. apply not_elem_of_dom, is_fresh. Qed.

Lemma truthy_undefined_field body name :
  assoc name body = None -> truthy (field body name) = false.
Proof. unfold field, member. by intros ->. Qed.

(** The trace only grows: a run appends its events. *)
Lemma trace_grows w body st :
  trace (run w body st) = (trace st ++ events w body st)%list.
Proof.
  apply (pay_wp w body st (fun st' evs => trace st' = (trace st ++ evs)%list)).
  wp_run; reflexivity.
Qed.

(** ** Validation *)

(** A request with a falsy required field is answered 400 at once. *)
Lemma rejected_at_validation w body st :
  truthy (field body "accountNumber") = false \/
  truthy (field body "amount") = false \/
  truthy (field body "network") = false ->
  events w body st = [EvRespond 400 missing_fields_body] /\
  store (run w body st) = store st /\
  ticks (run w body st) = ticks st.
Proof.
  intros H.
  apply (pay_wp w body st (fun st' evs =>
    evs = [EvRespond 400 missing_fields_body] /\
    store st' = store st /\ ticks st' = ticks st)).
  destruct H as [H | [H | H]]; wp_run; auto.
Qed.

(** A request whose required fields are all truthy gets past validation:
    the first thing it does is generate an identifier. *)
Lemma accepted_at_validation w body st :
  truthy (field body "accountNumber") = true ->
  truthy (field body "amount") = true ->
  truthy (field body "network") = true ->
  exists rest, events w body st = EvLog "Generated Name Enquiry TransactionID:" :: rest.
Proof.
  intros Ha Hm Hn.
  apply (pay_wp w body st (fun st' evs =>
    exists rest, evs = EvLog "Generated Name Enquiry TransactionID:" :: rest)).
  wp_run; eauto.
Qed.

(** Evaluates the readings of a run on the explicit events of a path. *)
Ltac observe :=
  unfold at_;
  cbn [store ticks calls updates transitions queries db_errors created flat_map app
       same_endpoint same_call last removelast In].

(** C4. A request body that lacks [accountNumber], [amount] or [network]
    is answered 400 with [{success: false, message}], the message naming
    the required fields, and nothing else happens: the response is the
    only event (no upstream call), the clock is not read (no identifier
    is generated) and the table is unchanged (no record). *)
Theorem missing_field_is_rejected w body st :
  assoc "accountNumber" body = None \/
  assoc "amount" body = None \/
  assoc "network" body = None ->
  events w body st =
    [EvRespond 400
       (VObj [("success", VBool false);
              ("message",
               VStr "Missing required fields: accountNumber, amount, network")])] /\
  store (run w body st) = store st /\
  ticks (run w body st) = ticks st.
Proof.
  intros H. apply rejected_at_validation.
  destruct H as [H | [H | H]]; apply truthy_undefined_field in H; auto.
Qed.

Lemma missing_field_is_rejected_witness :
  let w := sample_world token_answer name_answer (collection_answer "000") no_fault in
  let body := [("amount", fifty); ("network", VStr "MTN")] in
  assoc "accountNumber" body = None /\
  events w body empty_state =
    [EvRespond 400
       (VObj [("success", VBool false);
              ("message",
               VStr "Missing required fields: accountNumber, amount, network")])] /\
  store (run w body empty_state) = ∅.
Proof.
  intros w body. split; [reflexivity |].
  destruct (missing_field_is_rejected w body empty_state) as (He & Hs & _).
  - left. reflexivity.
  - split; [exact He | exact Hs].
Defined.

(** C9. A required field that is present but falsy (the number 0, the
    empty string, [false], [null]) is rejected exactly like a missing
    one; the 400 of validation is sent if and only if one of the three
    fields is falsy. *)
Theorem falsy_field_is_rejected w body st name v :
  name = "accountNumber" \/ name = "amount" \/ name = "network" ->
  assoc name body = Some v ->
  truthy v = false ->
  (events w body st = [EvRespond 400 missing_fields_body] /\
   store (run w body st) = store st /\
   ticks (run w body st) = ticks st) /\
  (forall w' body' st',
     events w' body' st' = [EvRespond 400 missing_fields_body] <->
     truthy (field body' "accountNumber") = false \/
     truthy (field body' "amount") = false \/
     truthy (field body' "network") = false).
Proof.
  intros Hname Hv Hfalsy. split.
  - apply rejected_at_validation.
    assert (Hf : truthy (field body name) = false).
    { unfold field, member. by rewrite Hv. }
    destruct Hname as [-> | [-> | ->]]; auto.
  - intros w' body' st'. split.
    + intros Hev.
      destruct (truthy (field body' "accountNumber")) eqn:Ha; [| by left].
      destruct (truthy (field body' "amount")) eqn:Hm; [| by right; left].
      destruct (truthy (field body' "network")) eqn:Hn; [| by right; right].
      destruct (accepted_at_validation w' body' st' Ha Hm Hn) as [rest Hrest].
      rewrite Hrest in Hev. discriminate Hev.
    + intros H. by apply rejected_at_validation.
Qed.

Lemma falsy_field_is_rejected_witness :
  let w := sample_world token_answer name_answer (collection_answer "000") no_fault in
  let zero := VNum (Finite false 0 0) in
  let body := [("accountNumber", VStr "0241234567"); ("amount", zero);
               ("network", VStr "MTN")] in
  assoc "amount" body = Some zero /\
  truthy zero = false /\
  events w body empty_state = [EvRespond 400 missing_fields_body].
Proof.
  intros w zero body. split; [reflexivity |]. split; [reflexivity |].
  destruct (falsy_field_is_rejected w body empty_state "amount" zero) as [[He _] _].
  - right. left. reflexivity.
  - reflexivity.
  - reflexivity.
  - exact He.
Defined.

(** ** The life cycle of a record *)

Lemma rank_final (b : bool) : (1 < rank (if b then completed else failed))%nat.
Proof. destruct b; cbn; lia. Qed.

(** The handler only writes under the key the store gave it: the rows
    that were there before the request are left as they were. *)
Lemma earlier_rows_untouched w body st key r :
  store st !! key = Some r -> store (run w body st) !! key = Some r.
Proof.
  revert key r.
  apply (pay_wp w body st (fun st' _ =>
    forall key r, store st !! key = Some r -> store st' !! key = Some r)).
  wp_run.
  all: unfold at_; cbn [store]; intros k0 r0 Hr0; try exact Hr0.
  all: pose proof (fresh_key_unused (store st)) as Hfresh; subst key.
  all: rewrite ?lookup_insert_ne by congruence; exact Hr0.
Qed.

Lemma rows_stay requests st key r :
  store st !! key = Some r -> store (serve requests st) !! key = Some r.
Proof.
  revert st. induction requests as [| [w body] later IH]; intros st Hr; [exact Hr |].
  cbn [serve]. by apply IH, earlier_rows_untouched.
Qed.

(** C3. Every step a run takes on the table is legal: an insert writes a
    pending row under an unused key, and an update moves the status of
    the row it finds strictly forward in the order pending, processing,
    terminal.  So no update sets a row back to pending or processing, and
    a completed or failed row is never updated again.  These steps are
    all that happens to the table, and the rows a request finds or leaves
    in the table are not touched by the requests served after it. *)
Theorem status_only_moves_forward w body st :
  lawful (store st) (events w body st) /\
  store (run w body st) = replay (events w body st) (store st) /\
  (forall call key before after,
     In (call, key, before, after) (transitions (events w body st)) ->
     status after <> pending /\
     (status after = processing -> status before = pending) /\
     terminal (status before) = false) /\
  (forall key r, store st !! key = Some r -> store (run w body st) !! key = Some r) /\
  (forall later key r,
     store (run w body st) !! key = Some r ->
     store (serve later (run w body st)) !! key = Some r).
Proof.
  assert (Hsteps :
    lawful (store st) (events w body st) /\
    store (run w body st) = replay (events w body st) (store st) /\
    (forall call key before after,
       In (call, key, before, after) (transitions (events w body st)) ->
       status after <> pending /\
       (status after = processing -> status before = pending) /\
       terminal (status before) = false)).
  { apply (pay_wp w body st (fun st' evs =>
      lawful (store st) evs /\
      store st' = replay evs (store st) /\
      (forall call key before after,
         In (call, key, before, after) (transitions evs) ->
         status after <> pending /\
         (status after = processing -> status before = pending) /\
         terminal (status before) = false))).
    wp_run.
    all: observe; cbn [lawful legal apply_event replay fold_left id row].
    all: subst; rewrite ?lookup_insert_eq, ?fresh_key_unused.
    all: cbn [status apply_patch set_status rank].
    all: split; [ | split ].
    all: try (intros call key before after Hin;
              repeat (destruct Hin as [Hin | Hin]; [injection Hin as <- <- <- <- |]);
              try contradiction;
              cbn [status apply_patch set_status terminal];
              repeat split; try discriminate; auto;
              destruct (isSuccess _); discriminate).
    all: try reflexivity.
    all: repeat split; auto using rank_final; try lia. }
  destruct Hsteps as (Hlawful & Hreplay & Hforward).
  split; [exact Hlawful |]. split; [exact Hreplay |]. split; [exact Hforward |].
  split.
  - intros key r. apply earlier_rows_untouched.
  - intros later key r. apply rows_stay.
Qed.

(** ** Upstream failures before the record exists *)

(** C6. When authentication fails, when name enquiry fails, or when no
    account name can be read from its answer, the run ends with a 500
    response and no record is stored for the request. *)
Theorem upstream_failure_answers_500 w body st rq out :
  (In (rq, out) (calls Auth (events w body st)) /\ authentication_failed out) \/
  (In (rq, out) (calls NameEnquiry (events w body st)) /\ enquiry_failed out) ->
  (exists msg, last (events w body st) = Some (EvRespond 500 (failure_body msg))) /\
  created (events w body st) = [] /\
  store (run w body st) = store st.
Proof.
  apply (pay_wp w body st (fun st' evs =>
    (In (rq, out) (calls Auth evs) /\ authentication_failed out) \/
    (In (rq, out) (calls NameEnquiry evs) /\ enquiry_failed out) ->
    (exists msg, last evs = Some (EvRespond 500 (failure_body msg))) /\
    created evs = [] /\
    store st' = store st)).
  wp_run.
  all: observe.
  all: intros [[Hin Hfail] | [Hin Hfail]]; try contradiction.
  all: destruct Hin as [Hin | []]; injection Hin as <- <-.
  all: cbn [authentication_failed enquiry_failed] in Hfail.
  all: try congruence.
  all: eauto.
Qed.

Lemma upstream_failure_answers_500_witness :
  let refusal := Rejected 401 (VObj [("message", VStr "Invalid credentials")]) in
  let w := sample_world refusal name_answer (collection_answer "000") no_fault in
  exists rq,
    In (rq, refusal) (calls Auth (events w sample_body empty_state)) /\
    authentication_failed refusal /\
    (exists msg,
       last (events w sample_body empty_state) = Some (EvRespond 500 (failure_body msg))) /\
    created (events w sample_body empty_state) = [] /\
    store (run w sample_body empty_state) = ∅.
Proof.
  intros refusal w.
  destruct (calls Auth (events w sample_body empty_state)) as [| [rq out] rest] eqn:Hcalls;
    [vm_compute in Hcalls; discriminate Hcalls |].
  assert (Hout : out = refusal).
  { vm_compute in Hcalls. injection Hcalls as _ <- _. reflexivity. }
  subst out. exists rq.
  split; [left; reflexivity |]. split; [exact I |].
  apply (upstream_failure_answers_500 w sample_body empty_state rq refusal).
  left. split; [rewrite Hcalls; left; reflexivity | exact I].
Defined.

(** ** The outcome of the collection *)

Lemma is_string_eq v s : is_string v s = true <-> v = VStr s.
Proof.
  destruct v; cbn; try (split; [discriminate | congruence]).
  rewrite String.eqb_eq. split; congruence.
Qed.

(** The collection counts as a success exactly when the status code is
    the string 000 or the string 0. *)
Lemma isSuccess_iff d :
  isSuccess d = true <->
  collectionStatus d = VStr "000" \/ collectionStatus d = VStr "0".
Proof. unfold isSuccess. by rewrite orb_true_iff, !is_string_eq. Qed.

(** What [isSuccess] computes, in terms of the two status codes: the
    code [message.status] decides whenever it is truthy, and
    [data.status] only when it is not. *)
Lemma isSuccess_codes d :
  isSuccess d =
  success_code (message_status d) ||
  negb (truthy (message_status d)) && success_code (data_status d).
Proof.
  unfold isSuccess, collectionStatus, or_else. fold (message_status d) (data_status d).
  destruct (truthy (message_status d)) eqn:Htruthy; cbn [negb andb].
  - rewrite orb_false_r. by destruct (message_status d).
  - assert (Hcode : success_code (message_status d) = false).
    { destruct (message_status d) as [| | | | s | |]; try reflexivity.
      destruct s; [reflexivity | discriminate Htruthy]. }
    rewrite Hcode. by destruct (data_status d).
Qed.

(** C2, as the code has it.  When a run receives a collection response,
    the handler finalizes the record of the request with status
    completed exactly when [message.status] is the string 000 or the
    string 0, or [message.status] is falsy (missing included) and
    [data.status] is one of these two strings; it finalizes it with
    status failed otherwise, so also when [message.status] is any other
    truthy value and [data.status] reports a success.  When no error is
    thrown, the store carrying out that update, the record holds the
    status. *)
Theorem collection_status_decides w body st rq c d :
  In (rq, Resolved c d) (calls Collection (events w body st)) ->
  exists p patch,
    created (events w body st) = [p] /\
    queries Final (events w body st) = [Update (id p) patch] /\
    set_status patch =
      (if success_code (message_status d) ||
          negb (truthy (message_status d)) && success_code (data_status d)
       then completed else failed) /\
    (db_fault w Final = None ->
     exists before after,
       updates Final (events w body st) = [(id p, before, after)] /\
       store (run w body st) !! id p = Some after /\
       status after = set_status patch).
Proof.
  apply (pay_wp w body st (fun st' evs =>
    In (rq, Resolved c d) (calls Collection evs) ->
    exists p patch,
      created evs = [p] /\
      queries Final evs = [Update (id p) patch] /\
      set_status patch =
        (if success_code (message_status d) ||
            negb (truthy (message_status d)) && success_code (data_status d)
         then completed else failed) /\
      (db_fault w Final = None ->
       exists before after,
         updates Final evs = [(id p, before, after)] /\
         store st' !! id p = Some after /\
         status after = set_status patch))).
  wp_run.
  all: observe; intros Hin; try contradiction.
  all: destruct Hin as [Hin | []]; try discriminate Hin.
  all: injection Hin as _ -> ->.
  all: eexists _, _; split; [reflexivity |]; split; [reflexivity |].
  all: cbn [set_status id].
  all: split; [by rewrite isSuccess_codes |].
  all: intros Hfinal; try congruence.
  eexists _, _. split; [reflexivity |]. split; [apply lookup_insert_eq |].
  subst. reflexivity.
Qed.

Lemma collection_status_decides_witness :
  let answer :=
    Resolved 200 (VObj [("message", VObj [("info", VStr "accepted")]);
                        ("data", VObj [("status", VStr "0")])]) in
  let w := sample_world token_answer name_answer answer no_fault in
  exists rq p before after,
    In (rq, answer) (calls Collection (events w sample_body empty_state)) /\
    db_fault w Final = None /\
    created (events w sample_body empty_state) = [p] /\
    updates Final (events w sample_body empty_state) = [(id p, before, after)] /\
    store (run w sample_body empty_state) !! id p = Some after /\
    status after = completed.
Proof.
  intros answer w.
  destruct (calls Collection (events w sample_body empty_state)) as [| [rq out] rest] eqn:Hcalls;
    [vm_compute in Hcalls; discriminate Hcalls |].
  assert (Hout : out = answer).
  { vm_compute in Hcalls. injection Hcalls as _ <- _. reflexivity. }
  subst out.
  destruct (collection_status_decides w sample_body empty_state rq 200
              (VObj [("message", VObj [("info", VStr "accepted")]);
                     ("data", VObj [("status", VStr "0")])]))
    as (p & patch & Hp & _ & Hdone & Hstored).
  - rewrite Hcalls. left. reflexivity.
  - destruct (Hstored eq_refl) as (before & after & Hup & Hrow & Hst).
    exists rq, p, before, after. split; [left; reflexivity |].
    split; [reflexivity |]. split; [exact Hp |]. split; [exact Hup |].
    split; [exact Hrow |]. rewrite Hst, Hdone. reflexivity.
Defined.

(** C2 as worded does not hold: a response whose [message.status] is 01
    and whose [data.status] is 000 holds a success code in one of the two
    fields, and the record is finalized failed. *)
Lemma failing_message_status_hides_data_status : ~ completed_when_a_status_succeeds.
Proof.
  intros H.
  pose (d := VObj [("message", VObj [("status", VStr "01")]);
                   ("data", VObj [("status", VStr "000")])]).
  pose (w := sample_world token_answer name_answer (Resolved 200 d) no_fault).
  destruct (calls Collection (events w sample_body empty_state)) as [| [rq out] rest] eqn:Hcalls;
    [vm_compute in Hcalls; discriminate Hcalls |].
  assert (Hout : out = Resolved 200 d).
  { vm_compute in Hcalls. injection Hcalls as _ <- _. reflexivity. }
  subst out.
  destruct (queries Final (events w sample_body empty_state)) as [| [r | key patch] more]
    eqn:Hq; try (vm_compute in Hq; discriminate Hq).
  assert (Hfailed : set_status patch = failed).
  { vm_compute in Hq. injection Hq as _ <- _. reflexivity. }
  destruct (H w sample_body empty_state rq 200 d key patch) as [_ Hcompleted].
  - rewrite Hcalls. left. reflexivity.
  - rewrite Hq. left. reflexivity.
  - rewrite Hcompleted in Hfailed; [discriminate Hfailed |]. right. reflexivity.
Qed.

(** C7. When a run receives a collection response whose status code is
    not a success code, 01 for instance, and no error is thrown, the
    record ends failed and the response is still 200, its body carrying
    the status failed. *)
Theorem failed_collection_still_answers_200 w body st rq c d :
  In (rq, Resolved c d) (calls Collection (events w body st)) ->
  collectionStatus d <> VStr "000" ->
  collectionStatus d <> VStr "0" ->
  db_fault w Final = None ->
  exists p before after resp,
    created (events w body st) = [p] /\
    updates Final (events w body st) = [(id p, before, after)] /\
    store (run w body st) !! id p = Some after /\
    status after = failed /\
    last (events w body st) = Some (EvRespond 200 resp) /\
    member resp "status" = VStr "failed".
Proof.
  intros Hin H000 H0 Hfinal. revert Hin.
  apply (pay_wp w body st (fun st' evs =>
    In (rq, Resolved c d) (calls Collection evs) ->
    exists p before after resp,
      created evs = [p] /\
      updates Final evs = [(id p, before, after)] /\
      store st' !! id p = Some after /\
      status after = failed /\
      last evs = Some (EvRespond 200 resp) /\
      member resp "status" = VStr "failed")).
  wp_run.
  all: observe; intros Hin; try contradiction.
  all: destruct Hin as [Hin | []]; try discriminate Hin.
  injection Hin as _ -> ->.
  assert (Hno : isSuccess d = false).
  { destruct (isSuccess d) eqn:Hs; [| reflexivity].
    apply isSuccess_iff in Hs. destruct Hs; contradiction. }
  eexists _, _, _, _. split; [reflexivity |]. split; [reflexivity |].
  split; [apply lookup_insert_eq |].
  subst. cbn [status apply_patch set_status]. rewrite Hno.
  split; [reflexivity |]. split; reflexivity.
Qed.

Lemma failed_collection_still_answers_200_witness :
  let w := sample_world token_answer name_answer (collection_answer "01") no_fault in
  exists rq p before after resp,
    In (rq, collection_answer "01") (calls Collection (events w sample_body empty_state)) /\
    collectionStatus (VObj [("message", VObj [("status", VStr "01")])]) <> VStr "000" /\
    collectionStatus (VObj [("message", VObj [("status", VStr "01")])]) <> VStr "0" /\
    db_fault w Final = None /\
    updates Final (events w sample_body empty_state) = [(id p, before, after)] /\
    status after = failed /\
    last (events w sample_body empty_state) = Some (EvRespond 200 resp) /\
    member resp "status" = VStr "failed".
Proof.
  intros w.
  destruct (calls Collection (events w sample_body empty_state)) as [| [rq out] rest] eqn:Hcalls;
    [vm_compute in Hcalls; discriminate Hcalls |].
  assert (Hout : out = collection_answer "01").
  { vm_compute in Hcalls. injection Hcalls as _ <- _. reflexivity. }
  subst out.
  destruct (failed_collection_still_answers_200 w sample_body empty_state rq 200
              (VObj [("message", VObj [("status", VStr "01")])]))
    as (p & before & after & resp & _ & Hup & _ & Hst & Hlast & Hbody).
  - rewrite Hcalls. left. reflexivity.
  - vm_compute. discriminate.
  - vm_compute. discriminate.
  - reflexivity.
  - exists rq, p, before, after, resp. split; [left; reflexivity |].
    split; [vm_compute; discriminate |]. split; [vm_compute; discriminate |].
    split; [reflexivity |].
    split; [exact Hup |]. split; [exact Hst |]. split; [exact Hlast | exact Hbody].
Defined.

(** ** The amount *)






(** ** One record per request *)

Lemma nullish_no_name d : nullish d = true -> truthy (account_name d) = false.
Proof. destruct d; try discriminate; reflexivity. Qed.

(** Uses what a path knows of the conversions in a statement about
    [convertible]. *)
Ltac conversions_in H :=
  unfold convertible in H;
  repeat match goal with
         | E : parseFloat _ = _ |- _ => rewrite E in H
         | E : optional_int _ = _ |- _ => rewrite E in H
         end;
  cbn [has andb] in H.

(** C1, as the code has it.  No run creates more than one record, and a
    response, when it is sent, is the last thing the run does, the table
    being by then what it is at the end.  When name enquiry succeeded
    with an account name, the amount and the optional references of the
    request can be parsed and the store accepts the insert, exactly one
    record is created; it is in a terminal status when the response is
    sent, unless the store rejected the update to failed that the catch
    block attempts.  When the store rejects the insert there is no
    record and the answer is 500; so it is when the amount or a
    reference cannot be parsed, the insert not being attempted. *)
Theorem pay_record_lifecycle w body st :
  (length (created (events w body st)) <= 1)%nat /\
  (forall code resp,
     In (code, resp) (responses (events w body st)) ->
     last (events w body st) = Some (EvRespond code resp) /\
     replay (removelast (events w body st)) (store st) = store (run w body st)) /\
  (verified w body st ->
   convertible body = true ->
   db_errors Create (events w body st) = [] ->
   exists p r,
     created (events w body st) = [p] /\
     store st !! id p = None /\
     store (run w body st) = <[id p := r]> (store st) /\
     (terminal (status r) = true <-> db_errors Recovery (events w body st) = [])) /\
  (db_errors Create (events w body st) <> [] ->
   created (events w body st) = [] /\
   store (run w body st) = store st /\
   exists msg, last (events w body st) = Some (EvRespond 500 (failure_body msg))) /\
  (verified w body st ->
   convertible body = false ->
   created (events w body st) = [] /\
   queries Create (events w body st) = [] /\
   store (run w body st) = store st /\
   last (events w body st) = Some (EvRespond 500 (failure_body cannot_convert))).
Proof.
  unfold verified.
  apply (pay_wp w body st (fun st' evs =>
    (length (created evs) <= 1)%nat /\
    (forall code resp,
       In (code, resp) (responses evs) ->
       last evs = Some (EvRespond code resp) /\
       replay (removelast evs) (store st) = store st') /\
    (verified_in evs ->
     convertible body = true ->
     db_errors Create evs = [] ->
     exists p r,
       created evs = [p] /\
       store st !! id p = None /\
       store st' = <[id p := r]> (store st) /\
       (terminal (status r) = true <-> db_errors Recovery evs = [])) /\
    (db_errors Create evs <> [] ->
     created evs = [] /\
     store st' = store st /\
     exists msg, last evs = Some (EvRespond 500 (failure_body msg))) /\
    (verified_in evs ->
     convertible body = false ->
     created evs = [] /\
     queries Create evs = [] /\
     store st' = store st /\
     last evs = Some (EvRespond 500 (failure_body cannot_convert))))).
  wp_run.
  all: observe; cbn [length responses flat_map app In].
  all: split; [lia |].
  all: split;
    [intros code resp [Hin | []]; injection Hin as <- <-; split; reflexivity |].
  all: split; [| split; [intros Hrejected; try (by destruct Hrejected); eauto |]].
  all: intros (rq & c & d & Hin & Hname) Hconv; try contradiction.
  all: destruct Hin as [Hin | []]; try discriminate Hin.
  all: injection Hin as _ -> ->.
  all: try (match goal with H : nullish _ = true |- _ => apply nullish_no_name in H end).
  all: try congruence.
  all: conversions_in Hconv; try discriminate Hconv.
  all: try (repeat split; reflexivity).
  all: intros Hcreated; try discriminate Hcreated.
  all: eexists _, _; split; [reflexivity |]; cbn [id row].
  all: subst key; split; [apply fresh_key_unused |].
  all: rewrite ?insert_insert_eq; split; [reflexivity |].
  all: subst; cbn [status apply_patch set_status terminal].
  all: try (destruct (isSuccess _)).
  all: split; intros Hside; first [reflexivity | discriminate Hside].
Qed.

Lemma pay_record_lifecycle_witness :
  let w := sample_world token_answer name_answer (collection_answer "000") no_fault in
  verified w sample_body empty_state /\
  convertible sample_body = true /\
  db_errors Create (events w sample_body empty_state) = [] /\
  db_errors Recovery (events w sample_body empty_state) = [] /\
  exists p r,
    created (events w sample_body empty_state) = [p] /\
    store (run w sample_body empty_state) = <[id p := r]> ∅ /\
    terminal (status r) = true.
Proof.
  intros w.
  assert (Hv : verified w sample_body empty_state).
  { unfold verified, verified_in.
    destruct (calls NameEnquiry (events w sample_body empty_state))
      as [| [rq out] rest] eqn:Hcalls; [vm_compute in Hcalls; discriminate Hcalls |].
    exists rq, 200, (VObj [("data", VObj [("nametocredit", VStr "AMA MENSAH")])]).
    split; [| reflexivity].
    left. vm_compute in Hcalls. injection Hcalls as _ <- _. reflexivity. }
  assert (Hc : db_errors Create (events w sample_body empty_state) = []).
  { vm_compute. reflexivity. }
  assert (Hr : db_errors Recovery (events w sample_body empty_state) = []).
  { vm_compute. reflexivity. }
  split; [exact Hv |]. split; [reflexivity |]. split; [exact Hc |]. split; [exact Hr |].
  destruct (pay_record_lifecycle w sample_body empty_state) as (_ & _ & H & _).
  destruct (H Hv eq_refl Hc) as (p & r & Hp & _ & Hs & Ht).
  exists p, r. split; [exact Hp |]. split; [exact Hs | exact (proj2 Ht Hr)].
Defined.

(** C1 as worded does not hold: when the store rejects the insert, a
    request that passed validation and name enquiry leaves no record. *)
Lemma rejected_insert_leaves_no_record : ~ every_verified_request_settles.
Proof.
  intros H.
  pose (w := sample_world token_answer name_answer (collection_answer "000")
               rejecting_insert).
  destruct (H w sample_body empty_state) as (p & r & code & resp & Hp & _).
  - unfold verified, verified_in.
    destruct (calls NameEnquiry (events w sample_body empty_state))
      as [| [rq out] rest] eqn:Hcalls; [vm_compute in Hcalls; discriminate Hcalls |].
    exists rq, 200, (VObj [("data", VObj [("nametocredit", VStr "AMA MENSAH")])]).
    split; [| reflexivity].
    left. vm_compute in Hcalls. injection Hcalls as _ <- _. reflexivity.
  - vm_compute in Hp. discriminate Hp.
Qed.

(** Nor does it when the store accepts everything: an amount that is an
    object with a property of its own named [toString] is truthy, so the
    request passes validation and name enquiry, and [parseFloat(amount)]
    throws before the insert. *)
Lemma unparsable_amount_leaves_no_record :
  let w := sample_world token_answer name_answer (collection_answer "000") no_fault in
  let body := [("accountNumber", VStr "0241234567");
               ("amount", VObj [("toString", VNum (Finite false 1 0))]);
               ("network", VStr "MTN")] in
  verified w body empty_state /\
  created (events w body empty_state) = [] /\
  store (run w body empty_state) = ∅ /\
  last (events w body empty_state) =
    Some (EvRespond 500 (failure_body "Cannot convert object to primitive value")).
Proof.
  intros w body. split.
  - unfold verified, verified_in.
    destruct (calls NameEnquiry (events w body empty_state))
      as [| [rq out] rest] eqn:Hcalls; [vm_compute in Hcalls; discriminate Hcalls |].
    exists rq, 200, (VObj [("data", VObj [("nametocredit", VStr "AMA MENSAH")])]).
    split; [| reflexivity].
    left. vm_compute in Hcalls. injection Hcalls as _ <- _. reflexivity.
  - split; [vm_compute; reflexivity |]. split; vm_compute; reflexivity.
Qed.

(** The same request when the store rejects both the update to
    processing and the update to failed: the record is still pending when
    the 500 response is sent. *)
Lemma rejected_updates_leave_record_pending :
  let w := sample_world token_answer name_answer (collection_answer "000")
             (fun call => match call with
                          | Processing | Recovery => Some "database is locked"
                          | _ => None
                          end) in
  exists p msg,
    created (events w sample_body empty_state) = [p] /\
    status <$> (store (run w sample_body empty_state) !! id p) = Some pending /\
    last (events w sample_body empty_state) = Some (EvRespond 500 (failure_body msg)).
Proof.
  intros w.
  destruct (created (events w sample_body empty_state)) as [| p ps] eqn:Hcreated;
    [vm_compute in Hcreated; discriminate Hcreated |].
  exists p, "database is locked".
  vm_compute in Hcreated. injection Hcreated as <- <-.
  split; [reflexivity |]. split; vm_compute; reflexivity.
Qed.

(** ** Network resolution *)

Lemma unsupported_no_code w network :
  unsupported w network ->
  truthy (member (networkMap w) (trim (toUpperCase network))) = false.
Proof.
  unfold unsupported, bank_code_variable, networkMap, member, env_value.
  cbn [assoc].
  destruct (String.eqb _ "MTN"); [| destruct (String.eqb _ "AIRTELTIGO");
    [| destruct (String.eqb _ "TELECEL")]]; cbn [default]; try reflexivity.
  all: intros [-> | ->]; reflexivity.
Qed.

Lemma contains_append needle before after :
  contains needle after = true -> contains needle (before +:+ after) = true.
Proof.
  intros H. induction before as [| c before IH]; [exact H |].
  change (String c before +:+ after) with (String c (before +:+ after)).
  cbn [contains]. rewrite IH. apply orb_true_r.
Qed.

Lemma truthy_nonempty s : s <> "" -> truthy (VStr s) = true.
Proof. intros H. destruct s; [contradiction | reflexivity]. Qed.

(** C5, as the code has it.  A request that passed the check of the
    required fields and whose network, a string, is unknown once
    uppercased and trimmed, or known with a bank code that is unset or
    empty, is answered 400 with a message that names the network and
    lists the supported ones; no upstream call is made and no record is
    created. *)
Theorem unsupported_network_is_rejected w body st network :
  truthy (field body "accountNumber") = true ->
  truthy (field body "amount") = true ->
  field body "network" = VStr network ->
  network <> "" ->
  unsupported w network ->
  rejected_naming_networks w body st /\
  events w body st =
    [EvLog "Generated Name Enquiry TransactionID:";
     EvSleep 10;
     EvLog "Generated Collection TransactionID:";
     EvRespond 400
       (VObj [("success", VBool false);
              ("message",
               VStr ("Invalid network: " +:+ network +:+
                     ". Supported networks: MTN, AirtelTigo, Telecel"))])].
Proof.
  intros Ha Hm Hn Hne Hun.
  assert (Htn : truthy (field body "network") = true).
  { rewrite Hn. by apply truthy_nonempty. }
  apply unsupported_no_code in Hun.
  assert (Hrun :
    events w body st =
      [EvLog "Generated Name Enquiry TransactionID:";
       EvSleep 10;
       EvLog "Generated Collection TransactionID:";
       EvRespond 400
         (bad_request_body ("Invalid network: " +:+ network +:+
                            ". Supported networks: MTN, AirtelTigo, Telecel"))] /\
    store (run w body st) = store st).
  { apply (pay_wp w body st (fun st' evs =>
      evs =
        [EvLog "Generated Name Enquiry TransactionID:";
         EvSleep 10;
         EvLog "Generated Collection TransactionID:";
         EvRespond 400
           (bad_request_body ("Invalid network: " +:+ network +:+
                              ". Supported networks: MTN, AirtelTigo, Telecel"))] /\
      store st' = store st)).
    wp_run. split; reflexivity. }
  destruct Hrun as [Hev Hstore]. split; [| exact Hev].
  exists ("Invalid network: " +:+ network +:+
          ". Supported networks: MTN, AirtelTigo, Telecel").
  rewrite Hev. split; [reflexivity |]. split.
  { apply contains_append, contains_append. reflexivity. }
  split; [intros []; reflexivity |]. split; [reflexivity | exact Hstore].
Qed.

Lemma unsupported_network_is_rejected_witness :
  let w := sample_world token_answer name_answer (collection_answer "000") no_fault in
  let body := [("accountNumber", VStr "0241234567"); ("amount", fifty);
               ("network", VStr "Vodafone")] in
  truthy (field body "accountNumber") = true /\
  truthy (field body "amount") = true /\
  field body "network" = VStr "Vodafone" /\
  unsupported w "Vodafone" /\
  rejected_naming_networks w body empty_state.
Proof.
  intros w body.
  split; [reflexivity |]. split; [reflexivity |]. split; [reflexivity |].
  split; [vm_compute; exact I |].
  apply (unsupported_network_is_rejected w body empty_state "Vodafone").
  - reflexivity.
  - reflexivity.
  - reflexivity.
  - discriminate.
  - vm_compute. exact I.
Defined.

(** C5 as worded does not hold for every request: an unknown network in
    a request that lacks a required field is answered by validation,
    whose message does not list the supported networks. *)
Lemma unknown_network_without_account_number :
  ~ every_unsupported_network_is_named.
Proof.
  intros H.
  pose (w := sample_world token_answer name_answer (collection_answer "000") no_fault).
  destruct (H w [("amount", fifty); ("network", VStr "Vodafone")] empty_state "Vodafone")
    as (msg & Hlast & Hnames & _).
  - reflexivity.
  - vm_compute. exact I.
  - vm_compute in Hlast. injection Hlast as <-.
    vm_compute in Hnames. discriminate Hnames.
Qed.

(** ** Authentication *)

Lemma wp_start {A} (m : M A) w st (Q : Result A -> State -> Prop) :
  wp m w (at_ (store st) (ticks st) (payment st) (trace st) []) Q ->
  Q (fst (m w st)) (snd (m w st)).
Proof.
  unfold at_. cbn [rev]. rewrite app_nil_r. by destruct st.
Qed.

Lemma or_else_truthy_fold l a :
  truthy a = true -> fold_left or_else l a = a.
Proof.
  revert a. induction l as [| b l IH]; intros a Ha; [reflexivity |].
  cbn [fold_left]. unfold or_else at 2. rewrite Ha. by apply IH.
Qed.

(** A chain [a || b || ...] evaluates to its first truthy operand, and to
    a falsy value when there is none. *)
Lemma or_else_chain_find l a :
  match List.find truthy (a :: l) with
  | Some t => fold_left or_else l a = t /\ truthy t = true
  | None => truthy (fold_left or_else l a) = false
  end.
Proof.
  revert a. induction l as [| b l IH]; intros a.
  - cbn. destruct (truthy a) eqn:Ha; auto.
  - cbn [List.find fold_left]. destruct (truthy a) eqn:Ha.
    + split; [| exact Ha]. unfold or_else at 2. rewrite Ha.
      by apply or_else_truthy_fold.
    + unfold or_else at 2 4. rewrite Ha.
      specialize (IH b). cbn [List.find] in IH. exact IH.
Qed.

Lemma extract_token_find d :
  match List.find truthy (token_probes d) with
  | Some t => extract_token d = t /\ truthy t = true
  | None => truthy (extract_token d) = false
  end.
Proof. exact (or_else_chain_find _ _). Qed.

(** The text of a rejection is the conversion of what is surfaced. *)
Lemma upstream_detail_surfaced d : upstream_detail d = ToString (surfaced d).
Proof. reflexivity. Qed.

(** C8, as the code has it.  [authenticate] returns the first of the
    fields [result], [token], [Token], [accessToken], [access_token],
    [data.token], [data.Token] of the response that is truthy.  When none
    is truthy it fails with a message that quotes the response.  When the
    call is rejected it fails with the upstream's message, or with its
    serialised payload when it has no truthy message; when that message
    is an object that cannot be converted to a string, the error is the
    [TypeError] of the conversion.  When there was no response it fails
    with the transport error. *)
Theorem authenticate_returns_first_truthy w st :
  fst (authenticate w st) =
  match http w Auth (auth_request w) with
  | Resolved _ d =>
      match List.find truthy (token_probes d) with
      | Some token => Ok token
      | None =>
          Throw (mkError
            ("Authentication error: Authentication failed: No token found in response. Response: "
             +:+ JSON_text d))
      end
  | Rejected _ d =>
      match ToString (surfaced d) with
      | Some detail => Throw (mkError ("Authentication error: " +:+ detail))
      | None => Throw (mkError "Cannot convert object to primitive value")
      end
  | Unreachable reason => Throw (mkError ("Authentication error: " +:+ reason))
  end.
Proof.
  apply (wp_start authenticate w st (fun r _ => r = _)).
  repeat wp_step.
  all: rewrite Hhttp; try reflexivity.
  all: try (rewrite <- upstream_detail_surfaced;
            match goal with H : upstream_detail _ = _ |- _ => rewrite H end;
            reflexivity).
  all: pose proof (extract_token_find data) as Hfind.
  all: destruct (List.find truthy (token_probes data)) as [t |];
    [destruct Hfind as [<- Ht] |]; first [reflexivity | congruence].
Qed.

(** What a rejection surfaces: the message of the upstream, its payload
    when it has none, and a [TypeError] when the message is an object
    with a property of its own named [toString]. *)
Example authenticate_surfaces_rejection :
  let failing d :=
    fst (authenticate
           (sample_world (Rejected 401 d) name_answer (collection_answer "000") no_fault)
           empty_state) in
  failing (VObj [("message", VStr "Invalid credentials")]) =
    Throw (mkError "Authentication error: Invalid credentials") /\
  failing (VObj [("message", VStr ""); ("code", VNum (Finite false 7 0))]) =
    Throw (mkError ("Authentication error: " +:+
                    JSON_text (VObj [("message", VStr ""); ("code", VNum (Finite false 7 0))]))) /\
  failing (VObj [("message", VObj [("toString", VNum (Finite false 1 0))])]) =
    Throw (mkError "Cannot convert object to primitive value").
Proof. repeat split; reflexivity. Qed.

(** C8 as worded does not hold: a field that is present but falsy is
    passed over.  When [result] is the empty string and [token] is [abc],
    the token returned is [abc], not the empty [result]. *)
Lemma authenticate_skips_falsy_field : ~ returns_first_present.
Proof.
  intros H.
  pose (d := VObj [("result", VStr ""); ("token", VStr "abc")]).
  pose (w := sample_world (Resolved 200 d) name_answer (collection_answer "000") no_fault).
  specialize (H w empty_state 200 d (VStr "") eq_refl eq_refl).
  vm_compute in H. discriminate H.
Qed.

(** ** The successful flow *)

(** All three upstream calls succeed and the collection reports 000: one
    record, completed, and a 200 response that names it. *)
Example successful_payment :
  let w := sample_world token_answer name_answer (collection_answer "000") no_fault in
  let st := run w sample_body empty_state in
  (status <$> store st !! 0%N) = Some completed /\
  size (store st) = 1%nat /\
  (exists resp,
     last (events w sample_body empty_state) = Some (EvRespond 200 resp) /\
     member resp "success" = VBool true /\
     member resp "paymentId" = VStr "0" /\
     member resp "status" = VStr "completed" /\
     member resp "nameEnquiryTransactionID" = VStr "MSH-1700000000000" /\
     member resp "collectionTransactionID" = VStr "MSH-1700000000010").
Proof.
  intros w st. split; [vm_compute; reflexivity |]. split; [vm_compute; reflexivity |].
  destruct (last (events w sample_body empty_state)) as [[| | | | | | | code resp] |] eqn:Hlast;
    try (vm_compute in Hlast; discriminate Hlast).
  vm_compute in Hlast. injection Hlast as <- <-.
  eexists. split; [reflexivity |]. repeat split; reflexivity.
Qed.

(** The collection call is rejected by the upstream: the record is
    marked failed in the catch block and the response is 500 with the
    upstream's message. *)
Example rejected_collection :
  let refusal := Rejected 500 (VObj [("message", VStr "Insufficient funds")]) in
  let w := sample_world token_answer name_answer refusal no_fault in
  (status <$> store (run w sample_body empty_state) !! 0%N) = Some failed /\
  last (events w sample_body empty_state) =
    Some (EvRespond 500 (failure_body "Collection error: Insufficient funds")).
Proof. intros refusal w. split; vm_compute; reflexivity. Qed.

(** ** Transaction identifiers *)

Lemma msh_inj a b : "MSH-" +:+ a = "MSH-" +:+ b -> a = b.
Proof. intros H. by injection H. Qed.

(** X1. The two identifiers of a record are the prefix followed by the first
    and the second reading of the clock; they coincide exactly when the
    clock did not advance between the two readings. *)
Theorem transaction_ids_follow_clock w body st p :
  In p (created (events w body st)) ->
  nameEnquiryTransactionId (row p) = "MSH-" +:+ pretty (now w (ticks st)) /\
  transactionId (row p) = "MSH-" +:+ pretty (now w (S (ticks st))) /\
  (transactionId (row p) = nameEnquiryTransactionId (row p) <->
   now w (S (ticks st)) = now w (ticks st)).
Proof.
  assert (Hids : forall p, In p (created (events w body st)) ->
    nameEnquiryTransactionId (row p) = "MSH-" +:+ pretty (now w (ticks st)) /\
    transactionId (row p) = "MSH-" +:+ pretty (now w (S (ticks st)))).
  { apply (pay_wp w body st (fun _ evs => forall p, In p (created evs) ->
      nameEnquiryTransactionId (row p) = "MSH-" +:+ pretty (now w (ticks st)) /\
      transactionId (row p) = "MSH-" +:+ pretty (now w (S (ticks st))))).
    wp_run.
    all: observe; intros p0 Hp; try contradiction.
    all: destruct Hp as [<- | []]; subst; split; reflexivity. }
  intros Hp. destruct (Hids p Hp) as [Hne Hco]. split; [exact Hne |]. split; [exact Hco |].
  rewrite Hne, Hco. split.
  - intros H. apply msh_inj in H. by apply (inj pretty) in H.
  - intros ->. reflexivity.
Qed.

Lemma transaction_ids_follow_clock_witness :
  let w := sample_world token_answer name_answer (collection_answer "000") no_fault in
  exists p,
    In p (created (events w sample_body empty_state)) /\
    nameEnquiryTransactionId (row p) = "MSH-1700000000000" /\
    transactionId (row p) = "MSH-1700000000010" /\
    transactionId (row p) <> nameEnquiryTransactionId (row p).
Proof.
  intros w.
  destruct (created (events w sample_body empty_state)) as [| p rest] eqn:Hcreated;
    [vm_compute in Hcreated; discriminate Hcreated |].
  exists p. split; [left; reflexivity |].
  destruct (transaction_ids_follow_clock w sample_body empty_state p) as (Hne & Hco & Hiff).
  - rewrite Hcreated. left. reflexivity.
  - split; [rewrite Hne; vm_compute; reflexivity |].
    split; [rewrite Hco; vm_compute; reflexivity |].
    intros Heq. apply Hiff in Heq. vm_compute in Heq. discriminate Heq.
Defined.

(** ** Identifiers across requests *)

(** What a run does to the identifiers of the table: a row it finds keeps
    its identifier, and the one row it may add, under the key the store chose, is stamped
    with the second of the clock readings of the run. *)
Lemma run_row_identifiers w body st :
  (ticks st <= ticks (run w body st))%nat /\
  forall key r',
    store (run w body st) !! key = Some r' ->
    (exists r, store st !! key = Some r /\ transactionId r = transactionId r') \/
    (key = fresh (dom (store st)) /\
     transactionId r' = "MSH-" +:+ pretty (now w (S (ticks st))) /\
     (S (ticks st) < ticks (run w body st))%nat).
Proof.
  apply (pay_wp w body st (fun st' _ =>
    (ticks st <= ticks st')%nat /\
    forall key r',
      store st' !! key = Some r' ->
      (exists r, store st !! key = Some r /\ transactionId r = transactionId r') \/
      (key = fresh (dom (store st)) /\
       transactionId r' = "MSH-" +:+ pretty (now w (S (ticks st))) /\
       (S (ticks st) < ticks st')%nat))).
  wp_run.
  all: unfold at_; cbn [store ticks]; (split; [lia |]); intros k0 r0.
  all: try (intros H0; left; by exists r0).
  all: destruct (decide (k0 = key)) as [-> | Hne].
  all: rewrite ?lookup_insert_eq, ?lookup_insert_ne by congruence.
  all: try (intros H0; left; by exists r0).
  all: intros [= <-]; right; subst.
  all: split; [reflexivity |]; split; [reflexivity | lia].
Qed.

Lemma run_keeps_identifiers_unique clock w body st :
  (forall n m, clock n = clock m -> n = m) ->
  (forall n, now w n = clock n) ->
  stamped clock st /\ unique_identifiers (store st) ->
  stamped clock (run w body st) /\ unique_identifiers (store (run w body st)).
Proof.
  intros Hinj Hclock [Hstamped Hunique].
  destruct (run_row_identifiers w body st) as [Hticks Hrows].
  assert (Hstamped' : stamped clock (run w body st)).
  { intros key r' Hr'. destruct (Hrows key r' Hr') as [(r & Hr & Hid) | (_ & Hid & Hlt)].
    - destruct (Hstamped key r Hr) as (n & Hn & Hn'). exists n. split; [lia | congruence].
    - exists (S (ticks st)). split; [exact Hlt |]. by rewrite <- Hclock. }
  split; [exact Hstamped' |].
  intros k1 k2 r1 r2 H1 H2 Heq.
  destruct (Hrows k1 r1 H1) as [(r1' & Hr1 & Hid1) | (Hnew1 & Hid1 & _)];
    destruct (Hrows k2 r2 H2) as [(r2' & Hr2 & Hid2) | (Hnew2 & Hid2 & _)].
  - apply (Hunique k1 k2 r1' r2' Hr1 Hr2). congruence.
  - exfalso. destruct (Hstamped k1 r1' Hr1) as (n & Hn & Hn').
    rewrite <- Hid1, Hn', Hid2, Hclock in Heq.
    apply msh_inj, (inj pretty), Hinj in Heq. lia.
  - exfalso. destruct (Hstamped k2 r2' Hr2) as (n & Hn & Hn').
    rewrite <- Hid2, Hn', Hid1, Hclock in Heq.
    apply msh_inj, (inj pretty), Hinj in Heq. lia.
  - congruence.
Qed.

(** X2. When the clock never gives the same reading twice, serving any
    sequence of requests keeps the collection identifiers of the table
    different from one another, provided they were so before and came
    from earlier readings of that clock. *)
Theorem identifiers_stay_unique clock requests st :
  (forall n m, clock n = clock m -> n = m) ->
  Forall (fun request => forall n, now (fst request) n = clock n) requests ->
  stamped clock st ->
  unique_identifiers (store st) ->
  unique_identifiers (store (serve requests st)).
Proof.
  intros Hinj Hclocks. revert st.
  induction Hclocks as [| [w body] later Hclock _ IH]; intros st Hstamped Hunique;
    [exact Hunique |].
  cbn [serve].
  destruct (run_keeps_identifiers_unique clock w body st Hinj Hclock (conj Hstamped Hunique))
    as [Hstamped' Hunique'].
  by apply IH.
Qed.

Lemma identifiers_stay_unique_witness :
  let w := sample_world token_answer name_answer (collection_answer "000") no_fault in
  let st := serve [(w, sample_body); (w, sample_body)] empty_state in
  exists r r',
    store st !! 0%N = Some r /\ store st !! 1%N = Some r' /\
    transactionId r <> transactionId r'.
Proof.
  intros w st.
  destruct (store st !! 0%N) as [r |] eqn:Hr; [| vm_compute in Hr; discriminate Hr].
  destruct (store st !! 1%N) as [r' |] eqn:Hr'; [| vm_compute in Hr'; discriminate Hr'].
  exists r, r'. split; [reflexivity |]. split; [reflexivity |].
  intros Heq.
  assert (Hkeys : 0%N = 1%N); [| discriminate Hkeys].
  apply (identifiers_stay_unique (now w) [(w, sample_body); (w, sample_body)] empty_state)
    with (r1 := r) (r2 := r'); try assumption.
  - intros n m H. cbn in H. lia.
  - repeat constructor.
  - intros key r0 H. vm_compute in H. discriminate H.
  - intros k1 k2 r1 r2 H. vm_compute in H. discriminate H.
Defined.

(** ** Network names *)

Lemma toUpperCase_app a b : toUpperCase (a +:+ b) = toUpperCase a +:+ toUpperCase b.
Proof.
  induction a as [| c a IH]; [reflexivity |].
  change (String c a +:+ b) with (String c (a +:+ b)).
  cbn [toUpperCase]. by rewrite IH.
Qed.

Lemma is_space_upper c : is_space (upper c) = is_space c.
Proof. destruct c as [[] [] [] [] [] [] [] []]; reflexivity. Qed.

Lemma blank_toUpperCase s : blank (toUpperCase s) = blank s.
Proof.
  induction s as [| c s IH]; [reflexivity |].
  cbn [toUpperCase blank]. by rewrite is_space_upper, IH.
Qed.

Lemma trimStart_blank s : blank s = true -> trimStart s = "".
Proof.
  induction s as [| c s IH]; [reflexivity |]. cbn [blank trimStart].
  intros [-> H]%andb_true_iff. by apply IH.
Qed.

Lemma trimEnd_blank s : blank s = true -> trimEnd s = "".
Proof.
  induction s as [| c s IH]; [reflexivity |]. cbn [blank trimEnd].
  intros [-> H]%andb_true_iff. by rewrite IH.
Qed.

Lemma trimEnd_app_blank s post : blank post = true -> trimEnd (s +:+ post) = trimEnd s.
Proof.
  intros H. induction s as [| c s IH]; [by apply trimEnd_blank |].
  change (String c s +:+ post) with (String c (s +:+ post)).
  cbn [trimEnd]. by rewrite IH.
Qed.

(** White space around a string does not survive [trim]. *)
Lemma trim_padding pre s post :
  blank pre = true -> blank post = true -> trim (pre +:+ s +:+ post) = trim s.
Proof.
  intros Hpre Hpost. unfold trim.
  induction pre as [| c pre IH].
  - change ("" +:+ s +:+ post) with (s +:+ post).
    induction s as [| c s IH];
      [change ("" +:+ post) with post; by rewrite (trimStart_blank post Hpost) |].
    change (String c s +:+ post) with (String c (s +:+ post)).
    cbn [trimStart]. destruct (is_space c); [exact IH |].
    change (String c (s +:+ post)) with (String c s +:+ post).
    by apply trimEnd_app_blank.
  - change (String c pre +:+ s +:+ post) with (String c (pre +:+ s +:+ post)).
    cbn [blank] in Hpre. apply andb_true_iff in Hpre as [Hc Hpre].
    cbn [trimStart]. rewrite Hc. by apply IH.
Qed.

(** What the table of the networks holds under a name. *)
Lemma networkMap_lookup w name :
  member (networkMap w) name =
  match bank_code_variable name with
  | Some var => env_value w var
  | None => VUndefined
  end.
Proof.
  unfold networkMap, member, bank_code_variable. cbn [assoc].
  destruct (String.eqb name "MTN"); [reflexivity |].
  destruct (String.eqb name "AIRTELTIGO"); [reflexivity |].
  destruct (String.eqb name "TELECEL"); reflexivity.
Qed.

(** A truthy entry of the table is a configured, non-empty bank code. *)
Lemma configured_code w name :
  truthy (member (networkMap w) name) = true <->
  exists var code,
    bank_code_variable name = Some var /\ env w var = Some code /\ code <> "" /\
    member (networkMap w) name = VStr code.
Proof.
  rewrite networkMap_lookup. unfold env_value. split.
  - destruct (bank_code_variable name) as [var |]; [| discriminate].
    destruct (env w var) as [code |] eqn:Henv; [| discriminate].
    intros H. exists var, code. split; [reflexivity |]. split; [exact Henv |].
    split; [| reflexivity]. intros ->. discriminate H.
  - intros (var & code & -> & -> & Hne & _). by apply truthy_nonempty.
Qed.

(** X3. [getNetworkBankCode] matches the name of the network ignoring the
    case of its letters and the white space around it: a name resolves to
    a bank code exactly when any name with the same letters does. *)
Theorem network_name_is_normalised w st pre s s' post :
  blank pre = true ->
  blank post = true ->
  toUpperCase s = toUpperCase s' ->
  forall bankCode,
    getNetworkBankCode (VStr (pre +:+ s +:+ post)) w st = (Ok bankCode, st) <->
    getNetworkBankCode (VStr s') w st = (Ok bankCode, st).
Proof.
  intros Hpre Hpost Hcase bankCode.
  assert (Hname : trim (toUpperCase (pre +:+ s +:+ post)) = trim (toUpperCase s')).
  { rewrite !toUpperCase_app, Hcase.
    apply trim_padding; by rewrite blank_toUpperCase. }
  unfold getNetworkBankCode, bind, ask, ret, throw. cbn [fst snd].
  rewrite Hname.
  destruct (truthy (member (networkMap w) (trim (toUpperCase s')))); cbn [negb].
  - reflexivity.
  - split; intros H; discriminate H.
Qed.

Lemma network_name_is_normalised_witness :
  let w := sample_world token_answer name_answer (collection_answer "000") no_fault in
  blank "  " = true /\ blank " " = true /\
  toUpperCase "AirtelTigo" = toUpperCase "AIRTELTIGO" /\
  getNetworkBankCode (VStr "  AirtelTigo ") w empty_state = (Ok (VStr "300592"), empty_state).
Proof.
  intros w. split; [reflexivity |]. split; [reflexivity |]. split; [reflexivity |].
  apply (network_name_is_normalised w empty_state "  " "AirtelTigo" "AIRTELTIGO" " ");
    reflexivity.
Defined.

(** X4. [getNetworkBankCode] returns a bank code exactly when the normalised
    name is one of the three of the table and the environment holds a
    non-empty code for it; it returns that code, and it has no effect. *)
Theorem bank_code_is_the_configured_one w st s :
  (forall v,
     fst (getNetworkBankCode (VStr s) w st) = Ok v <->
     exists var bankCode,
       bank_code_variable (trim (toUpperCase s)) = Some var /\
       env w var = Some bankCode /\ bankCode <> "" /\ v = VStr bankCode) /\
  snd (getNetworkBankCode (VStr s) w st) = st.
Proof.
  unfold getNetworkBankCode, bind, ask, ret, throw. cbn [fst snd].
  destruct (truthy (member (networkMap w) (trim (toUpperCase s)))) eqn:Htruthy;
    cbn [negb fst snd].
  - split; [| reflexivity]. intros v.
    apply configured_code in Htruthy as (var & bankCode & Hvar & Henv & Hne & Hval).
    rewrite Hval. split.
    + intros [= <-]. eauto 6.
    + intros (var' & code' & Hvar' & Henv' & _ & ->). congruence.
  - split; [| reflexivity]. intros v. split; [discriminate |].
    intros (var & bankCode & Hvar & Henv & Hne & _).
    rewrite networkMap_lookup, Hvar in Htruthy. unfold env_value in Htruthy.
    rewrite Henv, truthy_nonempty in Htruthy; [discriminate Htruthy | exact Hne].
Qed.

(** ** The bank code in a run *)

(** X5. The gateway is contacted only for a network that resolved to a
    configured, non-empty bank code; that code is the one sent to name
    enquiry and to collection, and the one recorded. *)
Theorem gateway_needs_configured_network w body st ep rq out :
  In (rq, out) (calls ep (events w body st)) ->
  exists s var bankCode,
    field body "network" = VStr s /\
    bank_code_variable (trim (toUpperCase s)) = Some var /\
    env w var = Some bankCode /\
    bankCode <> "" /\
    (ep = NameEnquiry -> assoc "BankCode" (req_params rq) = Some (VStr bankCode)) /\
    (ep = Collection -> member (req_data rq) "DestBank" = VStr bankCode) /\
    (forall p, In p (created (events w body st)) -> destBank (row p) = VStr bankCode).
Proof.
  revert ep rq out.
  apply (pay_wp w body st (fun st' evs =>
    forall ep rq out,
    In (rq, out) (calls ep evs) ->
    exists s var bankCode,
      field body "network" = VStr s /\
      bank_code_variable (trim (toUpperCase s)) = Some var /\
      env w var = Some bankCode /\
      bankCode <> "" /\
      (ep = NameEnquiry -> assoc "BankCode" (req_params rq) = Some (VStr bankCode)) /\
      (ep = Collection -> member (req_data rq) "DestBank" = VStr bankCode) /\
      (forall p, In p (created evs) -> destBank (row p) = VStr bankCode))).
  wp_run.
  all: intros ep rq out; try solve [destruct ep; observe; intros []].
  all: match goal with
       | H : truthy (member (networkMap _) _) = true |- _ =>
           apply configured_code in H as (var & bankCode & Hvar & Henv & Hne & Hval)
       end.
  all: destruct ep; observe; intros Hin; try contradiction.
  all: destruct Hin as [Hin | []]; injection Hin as <- <-.
  all: exists s, var, bankCode.
  all: do 4 (split; [first [assumption | reflexivity] |]).
  all: split; [first [discriminate | intros _; rewrite <- Hval; reflexivity] |].
  all: split; [first [discriminate | intros _; rewrite <- Hval; reflexivity] |].
  all: intros p Hp; try contradiction.
  all: destruct Hp as [<- | []]; subst; rewrite <- Hval; reflexivity.
Qed.

Lemma gateway_needs_configured_network_witness :
  let w := sample_world token_answer name_answer (collection_answer "000") no_fault in
  exists rq,
    In (rq, collection_answer "000") (calls Collection (events w sample_body empty_state)) /\
    member (req_data rq) "DestBank" = VStr "300591".
Proof.
  intros w.
  destruct (calls Collection (events w sample_body empty_state)) as [| [rq out] rest] eqn:Hcalls;
    [vm_compute in Hcalls; discriminate Hcalls |].
  assert (Hout : out = collection_answer "000").
  { vm_compute in Hcalls. injection Hcalls as _ <- _. reflexivity. }
  subst out. exists rq. split; [left; reflexivity |].
  destruct (gateway_needs_configured_network w sample_body empty_state Collection rq
              (collection_answer "000"))
    as (s & var & bankCode & Hs & Hvar & Henv & _ & _ & Hdest & _).
  - rewrite Hcalls. left. reflexivity.
  - rewrite (Hdest eq_refl).
    vm_compute in Hs. injection Hs as <-.
    vm_compute in Hvar. injection Hvar as <-.
    vm_compute in Henv. injection Henv as <-. reflexivity.
Defined.

(** X6. A network that is given but is not a string cannot be uppercased:
    the request is answered 400 with the message of the type error,
    before anything is asked of the gateway or of the store. *)
Theorem network_must_be_a_string w body st :
  truthy (field body "accountNumber") = true ->
  truthy (field body "amount") = true ->
  truthy (field body "network") = true ->
  (forall s, field body "network" <> VStr s) ->
  events w body st =
    [EvLog "Generated Name Enquiry TransactionID:";
     EvSleep 10;
     EvLog "Generated Collection TransactionID:";
     EvRespond 400 (bad_request_body "network.toUpperCase is not a function")] /\
  store (run w body st) = store st.
Proof.
  intros Ha Hm Hn Hstr.
  apply (pay_wp w body st (fun st' evs =>
    evs =
      [EvLog "Generated Name Enquiry TransactionID:";
       EvSleep 10;
       EvLog "Generated Collection TransactionID:";
       EvRespond 400 (bad_request_body "network.toUpperCase is not a function")] /\
    store st' = store st)).
  wp_run.
  all: try discriminate Hn.
  all: try (exfalso; eapply Hstr; reflexivity).
  all: split; reflexivity.
Qed.

Lemma network_must_be_a_string_witness :
  let w := sample_world token_answer name_answer (collection_answer "000") no_fault in
  let body := [("accountNumber", VStr "0241234567"); ("amount", fifty);
               ("network", VArr [VStr "MTN"])] in
  last (events w body empty_state) =
    Some (EvRespond 400 (bad_request_body "network.toUpperCase is not a function")) /\
  store (run w body empty_state) = ∅.
Proof.
  intros w body.
  destruct (network_must_be_a_string w body empty_state) as [Hevs Hstore].
  - reflexivity.
  - reflexivity.
  - reflexivity.
  - intros s. discriminate.
  - rewrite Hevs. split; [reflexivity | exact Hstore].
Defined.

(** ** What is sent upstream *)

(** X7. Name enquiry and collection are called only after authentication
    answered with a token that can be converted to a string, and both
    carry that token, the first truthy one of the probed fields, as a
    bearer authorization. *)
Theorem bearer_token_is_forwarded w body st rq out :
  In (rq, out) (calls NameEnquiry (events w body st)) \/
  In (rq, out) (calls Collection (events w body st)) ->
  exists c d token text,
    calls Auth (events w body st) = [(auth_request w, Resolved c d)] /\
    List.find truthy (token_probes d) = Some token /\
    ToString token = Some text /\
    header "Authorization" rq = Some ("Bearer " +:+ text).
Proof.
  apply (pay_wp w body st (fun st' evs =>
    In (rq, out) (calls NameEnquiry evs) \/ In (rq, out) (calls Collection evs) ->
    exists c d token text,
      calls Auth evs = [(auth_request w, Resolved c d)] /\
      List.find truthy (token_probes d) = Some token /\
      ToString token = Some text /\
      header "Authorization" rq = Some ("Bearer " +:+ text))).
  wp_run.
  all: observe; intros [Hin | Hin]; try contradiction.
  all: destruct Hin as [Hin | []]; injection Hin as <- <-.
  all: match goal with
       | H : truthy (extract_token ?d) = true |- _ =>
           pose proof (extract_token_find d) as Hfind;
           destruct (List.find truthy (token_probes d)) as [token |] eqn:Hprobe;
             [destruct Hfind as [Htoken _] | congruence]
       end.
  all: rewrite Htoken in *.
  all: eexists _, _, token, _; split; [reflexivity |]; split; [exact Hprobe |].
  all: split; [eassumption | reflexivity].
Qed.

Lemma bearer_token_is_forwarded_witness :
  let w := sample_world token_answer name_answer (collection_answer "000") no_fault in
  exists rq,
    In (rq, collection_answer "000") (calls Collection (events w sample_body empty_state)) /\
    header "Authorization" rq = Some "Bearer tok".
Proof.
  intros w.
  destruct (calls Collection (events w sample_body empty_state)) as [| [rq out] rest] eqn:Hcalls;
    [vm_compute in Hcalls; discriminate Hcalls |].
  assert (Hout : out = collection_answer "000").
  { vm_compute in Hcalls. injection Hcalls as _ <- _. reflexivity. }
  subst out. exists rq. split; [left; reflexivity |].
  destruct (bearer_token_is_forwarded w sample_body empty_state rq (collection_answer "000"))
    as (c & d & token & text & Hauth & Hprobe & Htext & Hheader).
  - right. rewrite Hcalls. left. reflexivity.
  - rewrite Hheader. vm_compute in Hauth. injection Hauth as <- <-.
    vm_compute in Hprobe. injection Hprobe as <-.
    vm_compute in Htext. injection Htext as <-. reflexivity.
Defined.

(** X22. A token that cannot be converted to a string stops the pipeline
    before name enquiry is requested: building the authorization header
    throws inside the helper, whose [catch] rewraps the error, and the
    answer is 500 with that message; nothing is stored. *)
Theorem unconvertible_token_stops_before_name_enquiry w body st rq c d token :
  In (rq, Resolved c d) (calls Auth (events w body st)) ->
  List.find truthy (token_probes d) = Some token ->
  ToString token = None ->
  calls NameEnquiry (events w body st) = [] /\
  calls Collection (events w body st) = [] /\
  created (events w body st) = [] /\
  store (run w body st) = store st /\
  last (events w body st) =
    Some (EvRespond 500
            (failure_body "Name enquiry error: Cannot convert object to primitive value")).
Proof.
  intros Hin Hprobe Htext. revert Hin.
  apply (pay_wp w body st (fun st' evs =>
    In (rq, Resolved c d) (calls Auth evs) ->
    calls NameEnquiry evs = [] /\
    calls Collection evs = [] /\
    created evs = [] /\
    store st' = store st /\
    last evs =
      Some (EvRespond 500
              (failure_body "Name enquiry error: Cannot convert object to primitive value")))).
  wp_run.
  all: observe; intros Hin; try contradiction.
  all: destruct Hin as [Hin | []]; try discriminate Hin.
  all: injection Hin as _ -> ->.
  all: pose proof (extract_token_find d) as Hfind; rewrite Hprobe in Hfind.
  all: destruct Hfind as [Htoken Htruthy]; rewrite Htoken in *.
  all: try congruence.
  all: repeat split; reflexivity.
Qed.

Lemma unconvertible_token_stops_before_name_enquiry_witness :
  let answer :=
    Resolved 200 (VObj [("token", VObj [("toString", VStr "tok")])]) in
  let w := sample_world answer name_answer (collection_answer "000") no_fault in
  exists rq,
    In (rq, answer) (calls Auth (events w sample_body empty_state)) /\
    calls NameEnquiry (events w sample_body empty_state) = [] /\
    last (events w sample_body empty_state) =
      Some (EvRespond 500
              (failure_body "Name enquiry error: Cannot convert object to primitive value")).
Proof.
  intros answer w.
  destruct (calls Auth (events w sample_body empty_state)) as [| [rq out] rest] eqn:Hcalls;
    [vm_compute in Hcalls; discriminate Hcalls |].
  assert (Hout : out = answer).
  { vm_compute in Hcalls. injection Hcalls as _ <- _. reflexivity. }
  subst out. exists rq. split; [left; reflexivity |].
  destruct (unconvertible_token_stops_before_name_enquiry w sample_body empty_state rq 200
              (VObj [("token", VObj [("toString", VStr "tok")])])
              (VObj [("toString", VStr "tok")]))
    as (Hne & _ & _ & _ & Hlast).
  - rewrite Hcalls. left. reflexivity.
  - reflexivity.
  - reflexivity.
  - split; [exact Hne | exact Hlast].
Defined.

Lemma or_else_truthy a b : truthy b = true -> truthy (a ||| b) = true.
Proof. intros H. unfold or_else. by destruct (truthy a) eqn:Ha. Qed.

(** [JSON.stringify] yields a text for everything but [undefined]. *)
Lemma stringify_defined v : nullish v = false -> stringify v <> None.
Proof. destruct v as [| | [] | [] | | |]; cbn; discriminate. Qed.

(** X8. A record is created only after name enquiry answered with an account
    name.  It is created pending, without response or completion time,
    and holds what was verified: the account number, partner code, bank
    code and identifier that were sent to name enquiry, the account name
    read from the answer and the answer itself, serialised, which is
    never missing. *)
Theorem record_holds_what_was_verified w body st p :
  In p (created (events w body st)) ->
  exists rq c d,
    calls NameEnquiry (events w body st) = [(rq, Resolved c d)] /\
    req_method rq = GET /\
    req_params rq =
      [("PartnerCode", partnerCode (row p));
       ("TransactionID", VStr (nameEnquiryTransactionId (row p)));
       ("BankCode", destBank (row p));
       ("NECAccount", accountNumber (row p))] /\
    accountNumber (row p) = field body "accountNumber" /\
    partnerCode (row p) = env_value w "PARTNER_CODE" /\
    accountName (row p) = account_name d /\
    truthy (accountName (row p)) = true /\
    verificationResponse (row p) = stringify d /\
    verificationResponse (row p) <> None /\
    status (row p) = pending /\
    response (row p) = None /\
    completedAt (row p) = None.
Proof.
  apply (pay_wp w body st (fun st' evs =>
    In p (created evs) ->
    exists rq c d,
      calls NameEnquiry evs = [(rq, Resolved c d)] /\
      req_method rq = GET /\
      req_params rq =
        [("PartnerCode", partnerCode (row p));
         ("TransactionID", VStr (nameEnquiryTransactionId (row p)));
         ("BankCode", destBank (row p));
         ("NECAccount", accountNumber (row p))] /\
      accountNumber (row p) = field body "accountNumber" /\
      partnerCode (row p) = env_value w "PARTNER_CODE" /\
      accountName (row p) = account_name d /\
      truthy (accountName (row p)) = true /\
      verificationResponse (row p) = stringify d /\
      verificationResponse (row p) <> None /\
      status (row p) = pending /\
      response (row p) = None /\
      completedAt (row p) = None)).
  wp_run.
  all: observe; intros Hp; try contradiction.
  all: destruct Hp as [<- | []]; subst.
  all: eexists _, _, _; split; [reflexivity |].
  all: repeat (split; [reflexivity |]).
  all: split; [assumption |].
  all: split; [reflexivity |].
  all: split; [by apply stringify_defined |].
  all: repeat split.
Qed.

Lemma record_holds_what_was_verified_witness :
  let w := sample_world token_answer name_answer (collection_answer "000") no_fault in
  exists p,
    In p (created (events w sample_body empty_state)) /\
    accountName (row p) = VStr "AMA MENSAH" /\
    accountNumber (row p) = VStr "0241234567" /\
    status (row p) = pending.
Proof.
  intros w.
  destruct (created (events w sample_body empty_state)) as [| p rest] eqn:Hcreated;
    [vm_compute in Hcreated; discriminate Hcreated |].
  exists p. split; [left; reflexivity |].
  destruct (record_holds_what_was_verified w sample_body empty_state p)
    as (rq & c & d & Hcalls & _ & _ & Hnumber & _ & Hname & _ & _ & _ & Hstatus & _).
  - rewrite Hcreated. left. reflexivity.
  - rewrite Hname, Hnumber. vm_compute in Hcalls. injection Hcalls as _ _ <-.
    split; [reflexivity |]. split; [reflexivity | exact Hstatus].
Defined.

(** X9. The collection is requested only once the record of the request has
    been created and moved to processing, and what is sent is what was
    recorded: partner code, bank code, account number, verified account
    name, collection identifier and narration, with the amount as the
    request gave it.  The narration is never empty: a missing one is
    replaced by the default text. *)
Theorem collection_sends_what_was_recorded w body st rq out :
  In (rq, out) (calls Collection (events w body st)) ->
  exists p r,
    created (events w body st) = [p] /\
    updates Processing (events w body st) = [(id p, row p, r)] /\
    status r = processing /\
    req_method rq = POST /\
    req_data rq =
      VObj [("PartnerCode", partnerCode (row p));
            ("DestBank", destBank (row p));
            ("Accountnumber", accountNumber (row p));
            ("AccountName", accountName (row p));
            ("Amount", field body "amount");
            ("TransactionID", VStr (transactionId (row p)));
            ("narration", narration (row p))] /\
    truthy (narration (row p)) = true /\
    header "Content-Type" rq = Some "application/json".
Proof.
  apply (pay_wp w body st (fun st' evs =>
    In (rq, out) (calls Collection evs) ->
    exists p r,
      created evs = [p] /\
      updates Processing evs = [(id p, row p, r)] /\
      status r = processing /\
      req_method rq = POST /\
      req_data rq =
        VObj [("PartnerCode", partnerCode (row p));
              ("DestBank", destBank (row p));
              ("Accountnumber", accountNumber (row p));
              ("AccountName", accountName (row p));
              ("Amount", field body "amount");
              ("TransactionID", VStr (transactionId (row p)));
              ("narration", narration (row p))] /\
      truthy (narration (row p)) = true /\
      header "Content-Type" rq = Some "application/json")).
  wp_run.
  all: observe; intros Hin; try contradiction.
  all: destruct Hin as [Hin | []]; injection Hin as <- <-.
  all: eexists _, _; split; [reflexivity |]; split; [reflexivity |].
  all: subst; split; [reflexivity |]; split; [reflexivity |]; split; [reflexivity |].
  all: split; [| reflexivity].
  all: apply or_else_truthy; reflexivity.
Qed.

Lemma collection_sends_what_was_recorded_witness :
  let w := sample_world token_answer name_answer (collection_answer "000") no_fault in
  exists rq p,
    In (rq, collection_answer "000") (calls Collection (events w sample_body empty_state)) /\
    created (events w sample_body empty_state) = [p] /\
    member (req_data rq) "narration" = VStr "Payment Gateway Transaction" /\
    member (req_data rq) "AccountName" = VStr "AMA MENSAH".
Proof.
  intros w.
  destruct (calls Collection (events w sample_body empty_state)) as [| [rq out] rest] eqn:Hcalls;
    [vm_compute in Hcalls; discriminate Hcalls |].
  assert (Hout : out = collection_answer "000").
  { vm_compute in Hcalls. injection Hcalls as _ <- _. reflexivity. }
  subst out.
  destruct (collection_sends_what_was_recorded w sample_body empty_state rq
              (collection_answer "000"))
    as (p & r & Hp & _ & _ & _ & Hdata & _).
  - rewrite Hcalls. left. reflexivity.
  - exists rq, p. split; [left; reflexivity |]. split; [exact Hp |].
    rewrite Hdata. vm_compute in Hp. injection Hp as <-. split; reflexivity.
Defined.

(** ** The optional references *)

Lemma pretty_N_char_digit d :
  (d < 10)%N -> is_digit (pretty_N_char d) = true /\ digit_val (pretty_N_char d) = d.
Proof.
  intros H.
  assert (d = 0 \/ d = 1 \/ d = 2 \/ d = 3 \/ d = 4 \/ d = 5 \/ d = 6 \/ d = 7 \/ d = 8 \/
          d = 9)%N as Hd by lia.
  repeat (destruct Hd as [-> | Hd]; [split; reflexivity |]). subst. split; reflexivity.
Qed.

Lemma take_digits_all s : all_digits s = true -> take_digits s = (s, "").
Proof.
  induction s as [| c s IH]; [reflexivity |]. cbn [all_digits take_digits].
  intros [-> H]%andb_true_iff. by rewrite (IH H).
Qed.

Lemma digits_value_acc acc s :
  digits_value acc s = (acc * 10 ^ N.of_nat (String.length s) + digits_value 0 s)%N.
Proof.
  revert acc. induction s as [| c s IH]; intros acc.
  - cbn. lia.
  - cbn [digits_value String.length]. rewrite IH, (IH (10 * 0 + digit_val c)%N).
    rewrite Nat2N.inj_succ, N.pow_succ_r'. lia.
Qed.

Lemma pretty_N_go_digits x s :
  all_digits s = true ->
  all_digits (pretty_N_go x s) = true /\
  digits_value 0 (pretty_N_go x s) =
    (x * 10 ^ N.of_nat (String.length s) + digits_value 0 s)%N.
Proof.
  revert s. induction (N.lt_wf_0 x) as [x _ IH]. intros s Hs.
  assert (x = 0 \/ 0 < x)%N as [-> | Hx] by lia.
  - rewrite pretty_N_go_0. split; [exact Hs | lia].
  - rewrite pretty_N_go_step by exact Hx.
    destruct (pretty_N_char_digit (x mod 10)%N) as [Hdigit Hval].
    { apply N.mod_lt. lia. }
    destruct (IH (x / 10)%N) with (s := String (pretty_N_char (x mod 10)) s) as [Hall Heq].
    + apply N.div_lt; lia.
    + cbn [all_digits]. by rewrite Hdigit, Hs.
    + split; [exact Hall |]. rewrite Heq.
      cbn [digits_value String.length]. rewrite (digits_value_acc _ s), Hval.
      rewrite Nat2N.inj_succ, N.pow_succ_r'.
      pose proof (N.div_mod x 10). lia.
Qed.

(** The decimal text of a number is made of digits, and reads back as the
    number. *)
Lemma pretty_N_digits (n : N) :
  all_digits (pretty n) = true /\ digits_value 0 (pretty n) = n /\ pretty n <> "".
Proof.
  unfold pretty, pretty_N. destruct (decide (n = 0%N)) as [-> | Hn].
  - repeat split. discriminate.
  - destruct (pretty_N_go_digits n "" eq_refl) as [Hall Heq].
    split; [exact Hall |]. split; [rewrite Heq; cbn; lia |].
    intros Hempty. rewrite Hempty in Heq. cbn in Heq. lia.
Qed.

Lemma digit_first c :
  is_digit c = true ->
  is_space c = false /\ (forall r, take_sign (String c r) = (false, String c r)) /\
  c <> "x"%char /\ c <> "X"%char.
Proof.
  destruct c as [[] [] [] [] [] [] [] []]; try discriminate; intros _.
  all: repeat split; discriminate.
Qed.

Lemma parseInt_pretty (n : N) : parseInt (VStr (pretty n)) = Some (whole_number n).
Proof.
  destruct (pretty_N_digits n) as (Hall & Hval & Hne).
  unfold parseInt, parseInt_string, whole_number. cbn [ToString]. f_equal.
  destruct (pretty n) as [| c r] eqn:Hs; [contradiction |].
  cbn [all_digits] in Hall. apply andb_true_iff in Hall as [Hc Hr].
  destruct (digit_first c Hc) as (Hspace & Hsign & Hx & HX).
  cbn [trimStart]. rewrite Hspace, Hsign.
  assert (Hprefix : String.prefix "0x" (String c r) || String.prefix "0X" (String c r) = false).
  { destruct r as [| c' r']; cbn [String.prefix].
    - by destruct (ascii_dec "0" c).
    - cbn [all_digits] in Hr. apply andb_true_iff in Hr as [Hc' _].
      destruct (digit_first c' Hc') as (_ & _ & Hx' & HX').
      destruct (ascii_dec "0" c); [| reflexivity].
      destruct (ascii_dec "x" c') as [<- |]; [contradiction |].
      destruct (ascii_dec "X" c') as [<- |]; [contradiction | reflexivity]. }
  rewrite Hprefix.
  rewrite (take_digits_all (String c r)) by (cbn [all_digits]; by rewrite Hc, Hr).
  cbn [fst]. by rewrite Hval.
Qed.

(** X10. The optional references of a record, [eventId] and [registrationId]:
    one that the request gives as the decimal text of a number of up to
    fifteen digits is stored as that number, and one that is missing or
    falsy is stored as null. *)
Theorem optional_references_are_parsed w body st p :
  In p (created (events w body st)) ->
  (forall n : N, (n < 10 ^ 15)%N -> field body "eventId" = VStr (pretty n) ->
     eventId (row p) = Some (whole_number n)) /\
  (truthy (field body "eventId") = false -> eventId (row p) = None) /\
  (forall n : N, (n < 10 ^ 15)%N -> field body "registrationId" = VStr (pretty n) ->
     registrationId (row p) = Some (whole_number n)) /\
  (truthy (field body "registrationId") = false -> registrationId (row p) = None).
Proof.
  assert (Hstored : In p (created (events w body st)) ->
    optional_int (field body "eventId") = Some (eventId (row p)) /\
    optional_int (field body "registrationId") = Some (registrationId (row p))).
  { apply (pay_wp w body st (fun _ evs =>
      In p (created evs) ->
      optional_int (field body "eventId") = Some (eventId (row p)) /\
      optional_int (field body "registrationId") = Some (registrationId (row p)))).
    wp_run.
    all: observe; intros Hp; try contradiction.
    all: destruct Hp as [<- | []]; subst; split; reflexivity. }
  intros Hp. destruct (Hstored Hp) as [Hevent Hregistration].
  unfold optional_int in Hevent, Hregistration.
  assert (Htext : forall n : N, truthy (VStr (pretty n)) = true).
  { intros n. apply truthy_nonempty. apply pretty_N_digits. }
  split.
  { intros n _ Hn. rewrite Hn, Htext, parseInt_pretty in Hevent. by injection Hevent. }
  split.
  { intros Hfalsy. rewrite Hfalsy in Hevent. by injection Hevent. }
  split.
  { intros n _ Hn. rewrite Hn, Htext, parseInt_pretty in Hregistration.
    by injection Hregistration. }
  intros Hfalsy. rewrite Hfalsy in Hregistration. by injection Hregistration.
Qed.

Lemma optional_references_are_parsed_witness :
  let w := sample_world token_answer name_answer (collection_answer "000") no_fault in
  let body := ("eventId", VStr "42") :: sample_body in
  exists p,
    In p (created (events w body empty_state)) /\
    eventId (row p) = Some (Finite false 42 0) /\
    registrationId (row p) = None.
Proof.
  intros w body.
  destruct (created (events w body empty_state)) as [| p rest] eqn:Hcreated;
    [vm_compute in Hcreated; discriminate Hcreated |].
  exists p. split; [left; reflexivity |].
  destruct (optional_references_are_parsed w body empty_state p)
    as (Hevent & _ & _ & Hnone).
  - rewrite Hcreated. left. reflexivity.
  - split; [exact (Hevent 42%N eq_refl eq_refl) | exact (Hnone eq_refl)].
Defined.

(** ** What a failure leaves behind *)

(** Computes [failure_text] from what a path knows of the rejection. *)
Ltac failure_text_known :=
  cbn [failure_text];
  rewrite <- ?upstream_detail_surfaced;
  repeat match goal with
         | H : upstream_detail _ = _ |- _ => rewrite H
         | H : nullish _ = _ |- _ => rewrite H
         end.

(** X11. When an upstream call stops the pipeline, the 500 response carries
    the text of the error as the helper worded it: the label of the step
    followed by the upstream's message, by its serialised payload when
    it has no truthy message, or by the transport error.  When the
    message of the upstream is an object that cannot be converted to a
    string, the text is that of the [TypeError] of the conversion. *)
Theorem failure_is_reported_verbatim w body st ep rq out :
  In (rq, out) (calls ep (events w body st)) ->
  halts ep out ->
  last (events w body st) = Some (EvRespond 500 (failure_body (failure_text ep out))).
Proof.
  revert ep rq out.
  apply (pay_wp w body st (fun st' evs =>
    forall ep rq out,
    In (rq, out) (calls ep evs) ->
    halts ep out ->
    last evs = Some (EvRespond 500 (failure_body (failure_text ep out))))).
  wp_run.
  all: intros ep rq out; destruct ep; observe; intros Hin; try contradiction.
  all: destruct Hin as [Hin | []]; injection Hin as <- <-.
  all: cbn [halts authentication_failed enquiry_failed]; intros Hhalt.
  all: try contradiction; try congruence.
  all: failure_text_known; reflexivity.
Qed.

Lemma failure_is_reported_verbatim_witness :
  let refusal := Rejected 404 (VObj [("message", VStr "Account not found")]) in
  let w := sample_world token_answer refusal (collection_answer "000") no_fault in
  exists rq,
    In (rq, refusal) (calls NameEnquiry (events w sample_body empty_state)) /\
    halts NameEnquiry refusal /\
    last (events w sample_body empty_state) =
      Some (EvRespond 500 (failure_body "Name enquiry error: Account not found")).
Proof.
  intros refusal w.
  destruct (calls NameEnquiry (events w sample_body empty_state)) as [| [rq out] rest] eqn:Hcalls;
    [vm_compute in Hcalls; discriminate Hcalls |].
  assert (Hout : out = refusal).
  { vm_compute in Hcalls. injection Hcalls as _ <- _. reflexivity. }
  subst out. exists rq.
  split; [left; reflexivity |]. split; [exact I |].
  apply (failure_is_reported_verbatim w sample_body empty_state NameEnquiry rq refusal).
  - rewrite Hcalls. left. reflexivity.
  - exact I.
Defined.

(** X12. When the collection call is rejected or cannot be made, the handler
    asks the store to mark the record of the request failed, with the
    text of the error as its response and a completion time, and answers
    500 with that text: the helper's message, or that of the [TypeError]
    when the upstream's message cannot be converted to a string.  When
    the store carries that update out the record ends failed. *)
Theorem collection_error_marks_record_failed w body st rq out :
  In (rq, out) (calls Collection (events w body st)) ->
  halts Collection out ->
  exists p,
    created (events w body st) = [p] /\
    queries Recovery (events w body st) =
      [Update (id p)
         {| set_status := failed;
            set_response :=
              stringify (VObj [("error", VStr (failure_text Collection out))]);
            set_completedAt := Some (now w (S (S (ticks st)))) |}] /\
    last (events w body st) =
      Some (EvRespond 500 (failure_body (failure_text Collection out))) /\
    (db_fault w Recovery = None ->
     exists r,
       store (run w body st) !! id p = Some r /\
       status r = failed /\
       response r = stringify (VObj [("error", VStr (failure_text Collection out))]) /\
       completedAt r = Some (now w (S (S (ticks st))))).
Proof.
  apply (pay_wp w body st (fun st' evs =>
    In (rq, out) (calls Collection evs) ->
    halts Collection out ->
    exists p,
      created evs = [p] /\
      queries Recovery evs =
        [Update (id p)
           {| set_status := failed;
              set_response :=
                stringify (VObj [("error", VStr (failure_text Collection out))]);
              set_completedAt := Some (now w (S (S (ticks st)))) |}] /\
      last evs = Some (EvRespond 500 (failure_body (failure_text Collection out))) /\
      (db_fault w Recovery = None ->
       exists r,
         store st' !! id p = Some r /\
         status r = failed /\
         response r = stringify (VObj [("error", VStr (failure_text Collection out))]) /\
         completedAt r = Some (now w (S (S (ticks st))))))).
  wp_run.
  all: observe; intros Hin; try contradiction.
  all: destruct Hin as [Hin | []]; injection Hin as <- <-.
  all: cbn [halts]; intros Hhalt; try contradiction.
  all: failure_text_known.
  all: eexists; split; [reflexivity |]; split; [reflexivity |]; split; [reflexivity |].
  all: intros Hrec; try congruence.
  all: eexists; split; [apply lookup_insert_eq |]; subst; repeat split.
Qed.

Lemma collection_error_marks_record_failed_witness :
  let refusal := Rejected 400 (VObj [("message", VStr "Insufficient funds")]) in
  let w := sample_world token_answer name_answer refusal no_fault in
  exists rq p r,
    In (rq, refusal) (calls Collection (events w sample_body empty_state)) /\
    halts Collection refusal /\
    db_fault w Recovery = None /\
    created (events w sample_body empty_state) = [p] /\
    store (run w sample_body empty_state) !! id p = Some r /\
    status r = failed /\
    last (events w sample_body empty_state) =
      Some (EvRespond 500 (failure_body "Collection error: Insufficient funds")).
Proof.
  intros refusal w.
  destruct (calls Collection (events w sample_body empty_state)) as [| [rq out] rest] eqn:Hcalls;
    [vm_compute in Hcalls; discriminate Hcalls |].
  assert (Hout : out = refusal).
  { vm_compute in Hcalls. injection Hcalls as _ <- _. reflexivity. }
  subst out.
  destruct (collection_error_marks_record_failed w sample_body empty_state rq refusal)
    as (p & Hp & _ & Hlast & Hstored).
  - rewrite Hcalls. left. reflexivity.
  - exact I.
  - destruct (Hstored eq_refl) as (r & Hr & Hst & _).
    exists rq, p, r. split; [left; reflexivity |]. split; [exact I |].
    split; [reflexivity |]. split; [exact Hp |]. split; [exact Hr |].
    split; [exact Hst | exact Hlast].
Defined.

(** A collection rejected with a message that cannot be converted: the
    error is the [TypeError] thrown while the helper builds its message,
    and it is what the response and the record hold. *)
Example rejection_that_cannot_be_worded :
  let refusal :=
    Rejected 400 (VObj [("message", VObj [("toString", VNum (Finite false 1 0))])]) in
  let w := sample_world token_answer name_answer refusal no_fault in
  failure_text Collection refusal = "Cannot convert object to primitive value" /\
  last (events w sample_body empty_state) =
    Some (EvRespond 500 (failure_body "Cannot convert object to primitive value")) /\
  (status <$> store (run w sample_body empty_state) !! 0%N) = Some failed /\
  (response <$> store (run w sample_body empty_state) !! 0%N) =
    Some (stringify (VObj [("error", VStr "Cannot convert object to primitive value")])).
Proof. intros refusal w. repeat split; vm_compute; reflexivity. Qed.

(** X13. When the store rejects the insert or the move to processing, the
    pipeline stops there: the money is never asked for, and the answer
    is 500 with the store's error.  After a rejected insert there is no
    record, and the handler does not try to mark one failed. *)
Theorem store_error_stops_the_pipeline w body st call msg :
  In msg (db_errors call (events w body st)) ->
  call = Create \/ call = Processing ->
  calls Collection (events w body st) = [] /\
  last (events w body st) = Some (EvRespond 500 (failure_body msg)) /\
  (call = Create ->
   created (events w body st) = [] /\
   queries Recovery (events w body st) = [] /\
   store (run w body st) = store st).
Proof.
  revert call msg.
  apply (pay_wp w body st (fun st' evs =>
    forall call msg,
    In msg (db_errors call evs) ->
    call = Create \/ call = Processing ->
    calls Collection evs = [] /\
    last evs = Some (EvRespond 500 (failure_body msg)) /\
    (call = Create ->
     created evs = [] /\ queries Recovery evs = [] /\ store st' = store st))).
  wp_run.
  all: intros call m Hin [-> | ->]; revert Hin; observe; intros Hin; try contradiction.
  all: destruct Hin as [<- | []].
  all: split; [reflexivity |]; split; [reflexivity |].
  all: first [discriminate | intros _; repeat split].
Qed.

Lemma store_error_stops_the_pipeline_witness :
  let w := sample_world token_answer name_answer (collection_answer "000") rejecting_insert in
  In "Unique constraint failed on the fields: (transactionId)"
     (db_errors Create (events w sample_body empty_state)) /\
  calls Collection (events w sample_body empty_state) = [] /\
  last (events w sample_body empty_state) =
    Some (EvRespond 500
            (failure_body "Unique constraint failed on the fields: (transactionId)")) /\
  store (run w sample_body empty_state) = ∅.
Proof.
  intros w.
  assert (Hin : In "Unique constraint failed on the fields: (transactionId)"
                  (db_errors Create (events w sample_body empty_state))).
  { vm_compute. tauto. }
  destruct (store_error_stops_the_pipeline w sample_body empty_state Create _ Hin)
    as (Hcalls & Hlast & Hcreate); [left; reflexivity |].
  destruct (Hcreate eq_refl) as (_ & _ & Hstore).
  split; [exact Hin |]. split; [exact Hcalls |]. split; [exact Hlast | exact Hstore].
Defined.

(** X14. A failure of the update that marks the record failed is swallowed:
    the record stays as it was, pending or processing, with no response
    and no completion time, and the answer is still the 500 that reports
    the first error, not the one of that update.  The first error is one
    of the store, at the move to processing or at the final update, or
    that of the collection: the helper's message, or the [TypeError]
    when the upstream's message cannot be converted to a string. *)
Theorem rejected_recovery_is_swallowed w body st msg :
  In msg (db_errors Recovery (events w body st)) ->
  exists p r cause,
    created (events w body st) = [p] /\
    store (run w body st) !! id p = Some r /\
    terminal (status r) = false /\
    response r = None /\
    completedAt r = None /\
    updates Recovery (events w body st) = [] /\
    last (events w body st) = Some (EvRespond 500 (failure_body cause)) /\
    (In cause (db_errors Processing (events w body st)) \/
     In cause (db_errors Final (events w body st)) \/
     exists rq out,
       In (rq, out) (calls Collection (events w body st)) /\
       halts Collection out /\ cause = failure_text Collection out).
Proof.
  apply (pay_wp w body st (fun st' evs =>
    In msg (db_errors Recovery evs) ->
    exists p r cause,
      created evs = [p] /\
      store st' !! id p = Some r /\
      terminal (status r) = false /\
      response r = None /\
      completedAt r = None /\
      updates Recovery evs = [] /\
      last evs = Some (EvRespond 500 (failure_body cause)) /\
      (In cause (db_errors Processing evs) \/
       In cause (db_errors Final evs) \/
       exists rq out,
         In (rq, out) (calls Collection evs) /\
         halts Collection out /\ cause = failure_text Collection out))).
  wp_run.
  all: observe; intros Hin; try contradiction.
  all: eexists _, _, _; split; [reflexivity |].
  all: split; [apply lookup_insert_eq |].
  all: subst; do 4 (split; [reflexivity |]); split; [reflexivity |].
  all: first [ left; left; reflexivity
             | right; left; left; reflexivity
             | right; right; eexists _, _; split; [left; reflexivity |];
               split; [exact I | failure_text_known; reflexivity] ].
Qed.

Lemma rejected_recovery_is_swallowed_witness :
  let fault := fun call => match call with Recovery => Some "Connection lost" | _ => None end in
  let w := sample_world token_answer name_answer (Unreachable "socket hang up") fault in
  exists p r,
    In "Connection lost" (db_errors Recovery (events w sample_body empty_state)) /\
    created (events w sample_body empty_state) = [p] /\
    store (run w sample_body empty_state) !! id p = Some r /\
    status r = processing /\
    last (events w sample_body empty_state) =
      Some (EvRespond 500 (failure_body "Collection error: socket hang up")).
Proof.
  intros fault w.
  assert (Hin : In "Connection lost" (db_errors Recovery (events w sample_body empty_state))).
  { vm_compute. tauto. }
  destruct (rejected_recovery_is_swallowed w sample_body empty_state _ Hin)
    as (p & r & cause & Hp & Hr & _ & _ & _ & _ & Hlast & _).
  exists p, r. split; [exact Hin |]. split; [exact Hp |]. split; [exact Hr |].
  split.
  - vm_compute in Hp. injection Hp as <-. vm_compute in Hr. injection Hr as <-. reflexivity.
  - rewrite Hlast. vm_compute in Hlast. injection Hlast as <-. reflexivity.
Defined.

(** ** The store *)

(** X15. Every insert the handler asks of the store is of a pending
    record, and every update it asks for names the key of the record that
    this request created, a key that was unused before the request: the
    handler never writes to the record of another request. *)
Theorem updates_target_own_record w body st call q :
  In (call, q) (all_queries (events w body st)) ->
  match q with
  | Insert r => call = Create /\ status r = pending
  | Update key _ =>
      call <> Create /\
      exists p, created (events w body st) = [p] /\ id p = key /\ store st !! key = None
  end.
Proof.
  revert call q.
  apply (pay_wp w body st (fun st' evs =>
    forall call q,
    In (call, q) (all_queries evs) ->
    match q with
    | Insert r => call = Create /\ status r = pending
    | Update key _ =>
        call <> Create /\
        exists p, created evs = [p] /\ id p = key /\ store st !! key = None
    end)).
  wp_run.
  all: observe; cbn [all_queries flat_map app In]; intros call q Hin.
  all: repeat (destruct Hin as [Hin | Hin]; [injection Hin as <- <- |]); try contradiction.
  all: subst; try (split; reflexivity).
  all: split; [discriminate |]; eexists; split; [reflexivity |]; split; [reflexivity |].
  all: apply fresh_key_unused.
Qed.

Lemma updates_target_own_record_witness :
  let w := sample_world token_answer name_answer (collection_answer "000") no_fault in
  exists key patch p,
    In (Final, Update key patch) (all_queries (events w sample_body empty_state)) /\
    created (events w sample_body empty_state) = [p] /\
    id p = key.
Proof.
  intros w.
  destruct (queries Final (events w sample_body empty_state)) as [| [r | key patch] rest]
    eqn:Hq; try (vm_compute in Hq; discriminate Hq).
  assert (Hin : In (Final, Update key patch) (all_queries (events w sample_body empty_state))).
  { vm_compute in Hq. injection Hq as <- <- _. vm_compute. tauto. }
  destruct (updates_target_own_record w sample_body empty_state Final (Update key patch) Hin)
    as (_ & p & Hp & Hid & _).
  exists key, patch, p. split; [exact Hin |]. split; [exact Hp | exact Hid].
Defined.

(** X16. When the collection was answered but the store rejects the final
    update, the request fails although the upstream took the collection:
    the answer is 500 with the store's error, and the handler asks the
    store to mark the record failed, which it ends when that second
    update is carried out, whatever the status code of the collection. *)
Theorem rejected_final_update_fails_the_payment w body st rq c d msg :
  In (rq, Resolved c d) (calls Collection (events w body st)) ->
  db_fault w Final = Some msg ->
  exists p,
    created (events w body st) = [p] /\
    last (events w body st) = Some (EvRespond 500 (failure_body msg)) /\
    queries Recovery (events w body st) =
      [Update (id p)
         {| set_status := failed;
            set_response := stringify (VObj [("error", VStr msg)]);
            set_completedAt := Some (now w (S (S (S (ticks st))))) |}] /\
    (db_fault w Recovery = None ->
     exists r, store (run w body st) !! id p = Some r /\ status r = failed).
Proof.
  intros Hin Hfault. revert Hin.
  apply (pay_wp w body st (fun st' evs =>
    In (rq, Resolved c d) (calls Collection evs) ->
    exists p,
      created evs = [p] /\
      last evs = Some (EvRespond 500 (failure_body msg)) /\
      queries Recovery evs =
        [Update (id p)
           {| set_status := failed;
              set_response := stringify (VObj [("error", VStr msg)]);
              set_completedAt := Some (now w (S (S (S (ticks st))))) |}] /\
      (db_fault w Recovery = None ->
       exists r, store st' !! id p = Some r /\ status r = failed))).
  wp_run.
  all: observe; intros Hin; try contradiction.
  all: destruct Hin as [Hin | []]; try discriminate Hin.
  all: injection Hin as _ -> ->.
  all: match goal with
       | H : db_fault _ Final = Some _ |- _ => rewrite Hfault in H; injection H as <-
       end.
  all: eexists; split; [reflexivity |]; split; [reflexivity |]; split; [reflexivity |].
  all: intros Hrec; try congruence.
  all: eexists; split; [apply lookup_insert_eq |]; subst; reflexivity.
Qed.

Lemma rejected_final_update_fails_the_payment_witness :
  let fault := fun call => match call with Final => Some "Connection lost" | _ => None end in
  let w := sample_world token_answer name_answer (collection_answer "000") fault in
  exists rq p r,
    In (rq, collection_answer "000") (calls Collection (events w sample_body empty_state)) /\
    db_fault w Final = Some "Connection lost" /\
    created (events w sample_body empty_state) = [p] /\
    last (events w sample_body empty_state) =
      Some (EvRespond 500 (failure_body "Connection lost")) /\
    store (run w sample_body empty_state) !! id p = Some r /\
    status r = failed.
Proof.
  intros fault w.
  destruct (calls Collection (events w sample_body empty_state)) as [| [rq out] rest] eqn:Hcalls;
    [vm_compute in Hcalls; discriminate Hcalls |].
  assert (Hout : out = collection_answer "000").
  { vm_compute in Hcalls. injection Hcalls as _ <- _. reflexivity. }
  subst out.
  destruct (rejected_final_update_fails_the_payment w sample_body empty_state rq 200
              (VObj [("message", VObj [("status", VStr "000")])]) "Connection lost")
    as (p & Hp & Hlast & _ & Hstored).
  - rewrite Hcalls. left. reflexivity.
  - reflexivity.
  - destruct (Hstored eq_refl) as (r & Hr & Hst).
    exists rq, p, r. split; [left; reflexivity |]. split; [reflexivity |].
    split; [exact Hp |]. split; [exact Hlast |]. split; [exact Hr | exact Hst].
Defined.

(** ** Completion *)

Lemma run_keeps_rows_consistent w body st :
  (forall key r, store st !! key = Some r -> consistent r = true) ->
  forall key r, store (run w body st) !! key = Some r -> consistent r = true.
Proof.
  apply (pay_wp w body st (fun st' _ =>
    (forall key r, store st !! key = Some r -> consistent r = true) ->
    forall key r, store st' !! key = Some r -> consistent r = true)).
  wp_run.
  all: unfold at_; cbn [store]; intros Hst k0 r0; try apply Hst.
  all: destruct (decide (k0 = key)) as [-> | Hne].
  all: rewrite ?lookup_insert_eq, ?lookup_insert_ne by congruence; try apply Hst.
  all: intros [= <-]; subst; try reflexivity.
  all: unfold consistent; cbn [apply_patch set_status set_response set_completedAt
         status response completedAt has terminal].
  all: destruct (isSuccess _); destruct (stringify _); reflexivity.
Qed.

(** X17. Serving any sequence of requests keeps the records of the table
    consistent: a record has a completion time exactly when its status
    is completed or failed, and a response only then. *)
Theorem completion_time_marks_terminal requests st :
  (forall key r, store st !! key = Some r -> consistent r = true) ->
  forall key r, store (serve requests st) !! key = Some r -> consistent r = true.
Proof.
  revert st. induction requests as [| [w body] later IH]; intros st Hst; [exact Hst |].
  cbn [serve]. apply IH. by apply run_keeps_rows_consistent.
Qed.

Lemma completion_time_marks_terminal_witness :
  let paid := sample_world token_answer name_answer (collection_answer "000") no_fault in
  let refused :=
    sample_world token_answer name_answer (Unreachable "socket hang up") no_fault in
  let st := serve [(paid, sample_body); (refused, sample_body)] empty_state in
  exists r r',
    store st !! 0%N = Some r /\ status r = completed /\ consistent r = true /\
    store st !! 1%N = Some r' /\ status r' = failed /\ consistent r' = true.
Proof.
  intros paid refused st.
  destruct (store st !! 0%N) as [r |] eqn:Hr; [| vm_compute in Hr; discriminate Hr].
  destruct (store st !! 1%N) as [r' |] eqn:Hr'; [| vm_compute in Hr'; discriminate Hr'].
  assert (Hall : forall key r, store st !! key = Some r -> consistent r = true).
  { apply (completion_time_marks_terminal
             [(paid, sample_body); (refused, sample_body)] empty_state).
    intros key r0 H. vm_compute in H. discriminate H. }
  exists r, r'. split; [reflexivity |].
  split; [vm_compute in Hr; injection Hr as <-; reflexivity |].
  split; [exact (Hall _ _ Hr) |]. split; [reflexivity |].
  split; [vm_compute in Hr'; injection Hr' as <-; reflexivity |].
  exact (Hall _ _ Hr').
Defined.

(** ** The response *)

(** X18. A request is answered at most once, and a response is the last
    thing the handler does: nothing is sent, asked of the gateway or
    written after it.  Its status code is 200, 400 or 500, its body says
    [success: true] exactly when the code is 200, and it always holds a
    message. *)
Theorem at_most_one_response w body st :
  (length (responses (events w body st)) <= 1)%nat /\
  forall code resp,
    In (code, resp) (responses (events w body st)) ->
    last (events w body st) = Some (EvRespond code resp) /\
    (code = 200 \/ code = 400 \/ code = 500) /\
    member resp "success" = VBool (code =? 200) /\
    exists msg, member resp "message" = VStr msg.
Proof.
  apply (pay_wp w body st (fun st' evs =>
    (length (responses evs) <= 1)%nat /\
    forall code resp,
      In (code, resp) (responses evs) ->
      last evs = Some (EvRespond code resp) /\
      (code = 200 \/ code = 400 \/ code = 500) /\
      member resp "success" = VBool (code =? 200) /\
      exists msg, member resp "message" = VStr msg)).
  wp_run.
  all: observe; cbn [responses flat_map app length In].
  all: split; [lia |].
  all: intros code resp [Hin | []]; injection Hin as <- <-.
  all: split; [reflexivity |]; split; [auto |]; split; [reflexivity |].
  all: eexists; reflexivity.
Qed.

Ltac in_order :=
  let n := fresh "n" in
  let H := fresh "H" in
  intros n H;
  cbn [position is_call is_insert is_update is_response same_endpoint same_call] in H |- *;
  first [ discriminate H
        | injection H as <-; eexists; split; [reflexivity | lia] ].

(** X19. Each upstream endpoint is called at most once and at most one record
    is created, and the steps come in the order of the pipeline:
    authentication before name enquiry, name enquiry before the record is
    created, the record created before it is moved to processing, that
    before the collection, and the collection before the final update. *)
Theorem steps_run_in_order w body st :
  (forall ep, (length (calls ep (events w body st)) <= 1)%nat) /\
  (length (created (events w body st)) <= 1)%nat /\
  precedes (is_call Auth) (is_call NameEnquiry) (events w body st) /\
  precedes (is_call NameEnquiry) is_insert (events w body st) /\
  precedes is_insert (is_update Processing) (events w body st) /\
  precedes (is_update Processing) (is_call Collection) (events w body st) /\
  precedes (is_call Collection) (is_update Final) (events w body st) /\
  precedes is_insert (is_update Recovery) (events w body st).
Proof.
  apply (pay_wp w body st (fun st' evs =>
    (forall ep, (length (calls ep evs) <= 1)%nat) /\
    (length (created evs) <= 1)%nat /\
    precedes (is_call Auth) (is_call NameEnquiry) evs /\
    precedes (is_call NameEnquiry) is_insert evs /\
    precedes is_insert (is_update Processing) evs /\
    precedes (is_update Processing) (is_call Collection) evs /\
    precedes (is_call Collection) (is_update Final) evs /\
    precedes is_insert (is_update Recovery) evs)).
  wp_run.
  all: split; [intros []; observe; cbn [length]; lia |].
  all: split; [observe; cbn [length]; lia |].
  all: unfold at_; repeat split; in_order.
Qed.

(** X20. A 200 response reports the record as the store holds it: the
    response is sent only after name enquiry and collection were both
    answered and the final update was carried out, the record is then
    terminal and holds the serialised collection answer, and the body
    names the record's key, its two identifiers and its status, with
    both upstream answers as they came. *)
Theorem success_response_reports_record w body st resp :
  last (events w body st) = Some (EvRespond 200 resp) ->
  exists p r rq1 c1 d1 rq2 c2 d2,
    created (events w body st) = [p] /\
    store (run w body st) !! id p = Some r /\
    terminal (status r) = true /\
    calls NameEnquiry (events w body st) = [(rq1, Resolved c1 d1)] /\
    calls Collection (events w body st) = [(rq2, Resolved c2 d2)] /\
    response r = stringify d2 /\
    resp =
      VObj [("success", VBool true);
            ("message", VStr "Payment processed successfully");
            ("paymentId", VStr (pretty (id p)));
            ("nameEnquiryTransactionID", VStr (nameEnquiryTransactionId r));
            ("collectionTransactionID", VStr (transactionId r));
            ("status", VStr (status_name (status r)));
            ("data", VObj [("nameEnquiry", d1); ("collection", d2)])].
Proof.
  apply (pay_wp w body st (fun st' evs =>
    last evs = Some (EvRespond 200 resp) ->
    exists p r rq1 c1 d1 rq2 c2 d2,
      created evs = [p] /\
      store st' !! id p = Some r /\
      terminal (status r) = true /\
      calls NameEnquiry evs = [(rq1, Resolved c1 d1)] /\
      calls Collection evs = [(rq2, Resolved c2 d2)] /\
      response r = stringify d2 /\
      resp =
        VObj [("success", VBool true);
              ("message", VStr "Payment processed successfully");
              ("paymentId", VStr (pretty (id p)));
              ("nameEnquiryTransactionID", VStr (nameEnquiryTransactionId r));
              ("collectionTransactionID", VStr (transactionId r));
              ("status", VStr (status_name (status r)));
              ("data", VObj [("nameEnquiry", d1); ("collection", d2)])])).
  wp_run.
  all: observe; intros Hlast; try discriminate Hlast.
  injection Hlast as <-.
  eexists _, _, _, _, _, _, _, _. split; [reflexivity |].
  split; [apply lookup_insert_eq |]. subst.
  split; [cbn [status apply_patch set_status]; by destruct (isSuccess _) |].
  split; [reflexivity |]. split; [reflexivity |].
  split; [cbn [response apply_patch set_response]; by destruct (stringify _) |].
  reflexivity.
Qed.

Lemma success_response_reports_record_witness :
  let w := sample_world token_answer name_answer (collection_answer "000") no_fault in
  exists resp,
    last (events w sample_body empty_state) = Some (EvRespond 200 resp) /\
    member resp "paymentId" = VStr "0" /\
    member resp "status" = VStr "completed" /\
    member resp "collectionTransactionID" = VStr "MSH-1700000000010".
Proof.
  intros w.
  destruct (last (events w sample_body empty_state)) as [[| | | | | | | code resp] |] eqn:Hlast;
    try (vm_compute in Hlast; discriminate Hlast).
  assert (Hcode : code = 200).
  { vm_compute in Hlast. injection Hlast as <- _. reflexivity. }
  subst code. exists resp. split; [reflexivity |].
  destruct (success_response_reports_record w sample_body empty_state resp Hlast)
    as (p & r & rq1 & c1 & d1 & rq2 & c2 & d2 & Hp & Hr & _ & _ & _ & _ & ->).
  vm_compute in Hp. injection Hp as <-.
  vm_compute in Hr. injection Hr as <-.
  split; [reflexivity |]. split; reflexivity.
Defined.

(** X21. The request is answered 200 exactly when the collection call was
    answered and the store accepted the final update, whatever the
    status code of the collection. *)
Theorem answers_200_exactly_when_finalised w body st :
  (exists resp, last (events w body st) = Some (EvRespond 200 resp)) <->
  (exists rq c d key before after,
     In (rq, Resolved c d) (calls Collection (events w body st)) /\
     updates Final (events w body st) = [(key, before, after)]).
Proof.
  apply (pay_wp w body st (fun st' evs =>
    (exists resp, last evs = Some (EvRespond 200 resp)) <->
    (exists rq c d key before after,
       In (rq, Resolved c d) (calls Collection evs) /\
       updates Final evs = [(key, before, after)]))).
  wp_run.
  all: observe; split.
  all: try (intros (resp & Hlast); discriminate Hlast).
  all: try (intros (rq & c & d & k0 & before & after & Hin & Hup); discriminate Hup).
  - intros _. eexists _, _, _, _, _, _. split; [left; reflexivity | reflexivity].
  - intros _. eexists. reflexivity.
Qed.
